(** * stream-hud: the checklist synchronisation engine

    A shallow embedding of
    - the checklist server with its HTTP control interface
      (the [ChecklistWebSocketServer] class with Express routes),
    - the earlier WebSocket-only server
      ([services/checklist-ws/src/server.ts]),
    - the overlay's data source ([apps/checklist-overlay/src/lib/ws.ts]),
    - the controller's selection tracking
      ([apps/hud-controller/src/tasks.ts]),
    followed by the properties proved about them. *)

From stdpp Require Import base option list strings pretty gmap.
From Stdlib Require Import ZArith Lia Sorted.

Local Open Scope Z_scope.

(** ** JavaScript array and string primitives used by the sources *)
Module Js.

(** [Array.prototype.findIndex]: index of the first element that
    satisfies [p], [-1] when there is none. *)
Fixpoint findIndexFrom {A} (p : A → bool) (i : Z) (l : list A) : Z :=
  match l with
  | [] => -1
  | x :: l' => if p x then i else findIndexFrom p (i + 1) l'
  end.

Definition findIndex {A} (p : A → bool) (l : list A) : Z :=
  findIndexFrom p 0 l.

(** [Array.prototype.find]. *)
Fixpoint find {A} (p : A → bool) (l : list A) : option A :=
  match l with
  | [] => None
  | x :: l' => if p x then Some x else find p l'
  end.

(** [arr[i]] for a number [i]: [undefined] outside the array. *)
Definition at_ {A} (l : list A) (i : Z) : option A :=
  if i <? 0 then None else l !! Z.to_nat i.

(** [arr.length]. *)
Definition len {A} (l : list A) : Z := Z.of_nat (length l).

(** [arr.splice(i, 1)] for an index [i] inside the array: the array
    that remains. *)
Definition spliceOut {A} (i : Z) (l : list A) : list A :=
  delete (Z.to_nat i) l.

(** [arr.splice(i, 0, x)] for [0 ≤ i]: [x] inserted before position
    [i], at the end when [i] is past it. *)
Definition spliceIn {A} (i : Z) (x : A) (l : list A) : list A :=
  take (Z.to_nat i) l ++ x :: drop (Z.to_nat i) l.

(** [arr[i] = x] for an index inside the array. *)
Definition setAt {A} (i : Z) (x : A) (l : list A) : list A :=
  <[Z.to_nat i := x]> l.

(** [arr[i].field = v], written as a function on the element. *)
Definition updAt {A} (i : Z) (f : A → A) (l : list A) : list A :=
  alter f (Z.to_nat i) l.

(** White space removed by [String.prototype.trim], on the ASCII
    range: tab, line feed, vertical tab, form feed, carriage return
    and space. *)
Definition isSpace (c : Ascii.ascii) : bool :=
  let n := Ascii.nat_of_ascii c in
  ((9 <=? n)%nat && (n <=? 13)%nat) || (n =? 32)%nat.

Fixpoint trimStart (s : string) : string :=
  match s with
  | String c s' => if isSpace c then trimStart s' else s
  | EmptyString => EmptyString
  end.

Fixpoint trimEnd (s : string) : string :=
  match s with
  | EmptyString => EmptyString
  | String c s' =>
      match trimEnd s' with
      | EmptyString => if isSpace c then EmptyString else String c EmptyString
      | r => String c r
      end
  end.

Definition trim (s : string) : string := trimEnd (trimStart s).

(** [s.startsWith(p)] and [s.substring(n)]. *)
Definition startsWith (p s : string) : bool := String.prefix p s.
Definition substringFrom (n : nat) (s : string) : string :=
  String.substring n (String.length s - n) s.

End Js.

(** ** The checklist server with HTTP control interface *)
Module Server.

(** [interface ChecklistItem]. *)
Record ChecklistItem := mkItem {
  id : string;
  text : string;
  done : bool;
  completed : option bool;
  group : option string;
  order : option Z
}.

(** [interface ChecklistData]. *)
Record ChecklistData := mkData {
  items : list ChecklistItem;
  ts : Z;
  dataSelectedTaskId : option string
}.

Definition setDone (b : bool) (t : ChecklistItem) : ChecklistItem :=
  mkItem (id t) (text t) b (completed t) (group t) (order t).
Definition setCompleted (b : bool) (t : ChecklistItem) : ChecklistItem :=
  mkItem (id t) (text t) (done t) (Some b) (group t) (order t).
Definition setText (s : string) (t : ChecklistItem) : ChecklistItem :=
  mkItem (id t) s (done t) (completed t) (group t) (order t).
Definition setOrder (n : Z) (t : ChecklistItem) : ChecklistItem :=
  mkItem (id t) (text t) (done t) (completed t) (group t) (Some n).

Definition setItems (l : list ChecklistItem) (d : ChecklistData) : ChecklistData :=
  mkData l (ts d) (dataSelectedTaskId d).
Definition setTs (n : Z) (d : ChecklistData) : ChecklistData :=
  mkData (items d) n (dataSelectedTaskId d).

(** [items.forEach((item, index) => { item.order = index })]. *)
Definition renumber (l : list ChecklistItem) : list ChecklistItem :=
  imap (λ index item, setOrder (Z.of_nat index) item) l.

Definition hasId (taskId : string) (item : ChecklistItem) : bool :=
  String.eqb (id item) taskId.

(** [value || undefined] and [value || null] on an optional string:
    the empty string is falsy. *)
Definition truthy (s : option string) : option string :=
  match s with
  | Some EmptyString => None
  | _ => s
  end.

(** What is put on a socket: [broadcastToAll] sends the
    [tasks_updated] shape, [sendToClient] and
    [broadcastSelectionUpdate] send the data object itself. *)
Inductive Payload :=
| TasksUpdated (tasks : list ChecklistItem) (sel : option string)
| Snapshot (its : list ChecklistItem) (t : Z) (sel : option string).

(** Contents of [configs/tasks.json] as [loadTasksFile] sees them. *)
Inductive FileContent :=
| FileMissing
| FileUnreadable
| FileJson (its : option (list ChecklistItem)) (t : option Z)
           (sel : option string).

(** Bodies of the JSON responses. *)
Inductive Body :=
| BError (msg : string)
| BTasks (tasks : list ChecklistItem)
| BToggled (toggledTask : string)
| BMessage (msg : string)
| BDeleted (deletedTask : string)
| BEdited (oldText newText : string)
| BSelected (sel : option string)
| BPage.

Inductive Effect :=
| Broadcast (recipients : list nat) (p : Payload)
| Send (ws : nat) (p : Payload)
| WriteFile (d : ChecklistData)
| SaveFailed
| Respond (status : Z) (body : Body)
| CloseSocket (ws : nat).

(** The fields of [ChecklistWebSocketServer] followed by the parts of
    its surroundings the code reads: the clock, the tasks file, whether
    writing it succeeds, and the state of the sockets. *)
Record World := mkWorld {
  lastData : option ChecklistData;
  clients : list nat;
  selectedTaskId : option string;
  saveTimeout : option Z;
  broadcastInterval : option Z;
  clock : Z;
  file : FileContent;
  fileWritable : bool;
  openSockets : list nat;
  throwingSockets : list nat
}.

Definition setLastData (v : option ChecklistData) (w : World) : World :=
  mkWorld v (clients w) (selectedTaskId w) (saveTimeout w)
    (broadcastInterval w) (clock w) (file w) (fileWritable w)
    (openSockets w) (throwingSockets w).
Definition setClients (v : list nat) (w : World) : World :=
  mkWorld (lastData w) v (selectedTaskId w) (saveTimeout w)
    (broadcastInterval w) (clock w) (file w) (fileWritable w)
    (openSockets w) (throwingSockets w).
Definition setSelectedTaskId (v : option string) (w : World) : World :=
  mkWorld (lastData w) (clients w) v (saveTimeout w)
    (broadcastInterval w) (clock w) (file w) (fileWritable w)
    (openSockets w) (throwingSockets w).
Definition setSaveTimeout (v : option Z) (w : World) : World :=
  mkWorld (lastData w) (clients w) (selectedTaskId w) v
    (broadcastInterval w) (clock w) (file w) (fileWritable w)
    (openSockets w) (throwingSockets w).
Definition setBroadcastInterval (v : option Z) (w : World) : World :=
  mkWorld (lastData w) (clients w) (selectedTaskId w) (saveTimeout w)
    v (clock w) (file w) (fileWritable w)
    (openSockets w) (throwingSockets w).
Definition setClock (v : Z) (w : World) : World :=
  mkWorld (lastData w) (clients w) (selectedTaskId w) (saveTimeout w)
    (broadcastInterval w) v (file w) (fileWritable w)
    (openSockets w) (throwingSockets w).
Definition setFile (v : FileContent) (w : World) : World :=
  mkWorld (lastData w) (clients w) (selectedTaskId w) (saveTimeout w)
    (broadcastInterval w) (clock w) v (fileWritable w)
    (openSockets w) (throwingSockets w).
Definition setOpenSockets (v : list nat) (w : World) : World :=
  mkWorld (lastData w) (clients w) (selectedTaskId w) (saveTimeout w)
    (broadcastInterval w) (clock w) (file w) (fileWritable w)
    v (throwingSockets w).

(** Methods run on the world and report what they did: a result, the
    world afterwards and the effects in the order they happened. *)
Definition M (A : Type) : Type := World → A * World * list Effect.

Definition ret {A} (a : A) : M A := λ w, (a, w, []).
Definition bind {A B} (m : M A) (k : A → M B) : M B :=
  λ w, let r1 := m w in
       let r2 := k r1.1.1 r1.1.2 in
       (r2.1.1, r2.1.2, r1.2 ++ r2.2).
Definition emit (e : Effect) : M unit := λ w, (tt, w, [e]).
Definition modify (f : World → World) : M unit := λ w, (tt, f w, []).

Definition result {A} (r : A * World * list Effect) : A := r.1.1.
Definition after {A} (r : A * World * list Effect) : World := r.1.2.
Definition effects {A} (r : A * World * list Effect) : list Effect := r.2.

Notation "'let!' x ':=' m 'in' k" := (bind m (λ x, k))
  (at level 10, x name, m at level 100, k at level 200).
Notation "m ;;; k" := (bind m (λ _, k))
  (at level 100, k at level 200, right associativity).

(** [task = items.find(p); task.field = ...]: the first element that
    satisfies [p] is changed in place. *)
Fixpoint updFirst (p : ChecklistItem → bool) (f : ChecklistItem → ChecklistItem)
    (l : list ChecklistItem) : list ChecklistItem :=
  match l with
  | [] => []
  | x :: l' => if p x then f x :: l' else x :: updFirst p f l'
  end.

(** In-place change of [this.lastData.items]. *)
Definition mutateItems (f : list ChecklistItem → list ChecklistItem) : M unit :=
  modify (λ w, match lastData w with
               | Some d => setLastData (Some (setItems (f (items d)) d)) w
               | None => w
               end).

(** [saveTasksFile]: the timestamp is refreshed inside the [try],
    before the write that may throw. *)
Definition saveTasksFile : M bool := λ w,
  match lastData w with
  | None => (false, w, [])
  | Some d =>
      let d' := setTs (clock w / 1000) d in
      let w' := setLastData (Some d') w in
      if fileWritable w
      then (true,
            setFile (FileJson (Some (items d')) (Some (ts d'))
                       (dataSelectedTaskId d')) w',
            [WriteFile d'])
      else (false, w', [SaveFailed])
  end.

(** [debouncedSave]: a pending timeout is cleared and a new one set
    100ms from now. *)
Definition debouncedSave : M unit :=
  modify (λ w, setSaveTimeout (Some (clock w + 100)) w).

(** The callback of the timeout set by [debouncedSave]. *)
Definition saveTimeoutFires : M unit :=
  saveTasksFile ;;; modify (setSaveTimeout None).

(** A socket takes a message when its [readyState] is [OPEN] and
    [send] does not throw. *)
Definition sendable (w : World) (ws : nat) : bool :=
  bool_decide (ws ∈ openSockets w) && negb (bool_decide (ws ∈ throwingSockets w)).

(** The loop shared by [broadcastToAll] and [broadcastSelectionUpdate]:
    every client that is not open, or whose [send] throws, is removed
    afterwards. *)
Definition fanOut (p : Payload) : M unit := λ w,
  let delivered := List.filter (sendable w) (clients w) in
  (tt, setClients delivered w, [Broadcast delivered p]).

Definition broadcastToAll (data : ChecklistData) : M unit := λ w,
  if Js.len (clients w) =? 0 then ret tt w
  else fanOut (TasksUpdated (items data) (truthy (selectedTaskId w))) w.

(** [this.broadcastToAll(this.lastData)]. *)
Definition broadcastLastData : M unit := λ w,
  match lastData w with
  | Some d => broadcastToAll d w
  | None => ret tt w
  end.

Definition broadcastSelectionUpdate : M unit := λ w,
  match lastData w with
  | None => ret tt w
  | Some d => fanOut (Snapshot (items d) (ts d) (truthy (selectedTaskId w))) w
  end.

Definition sendToClient (ws : nat) (data : ChecklistData) : M unit := λ w,
  if bool_decide (ws ∈ openSockets w) then
    if bool_decide (ws ∈ throwingSockets w)
    then modify (λ w, setClients (List.filter (λ c, negb (c =? ws)%nat) (clients w)) w) w
    else emit (Send ws (Snapshot (items data) (ts data) (dataSelectedTaskId data))) w
  else ret tt w.

Definition loadTasksFile : M (option ChecklistData) := λ w,
  match file w with
  | FileJson (Some its) t sel =>
      let t' := match t with
                | Some n => if n =? 0 then clock w / 1000 else n
                | None => clock w / 1000
                end in
      ret (Some (mkData its t' sel)) w
  | _ => ret None w
  end.

Definition loadAndBroadcast : M unit :=
  let! data := loadTasksFile in
  match data with
  | Some d => modify (setLastData (Some d)) ;;; broadcastToAll d
  | None => ret tt
  end.

Definition toggleTaskById (taskId : string) : M bool := λ w,
  match lastData w with
  | None => ret false w
  | Some d =>
      match Js.find (hasId taskId) (items d) with
      | None => ret false w
      | Some _ =>
          (mutateItems (updFirst (hasId taskId)
             (λ task, let task' := setDone (negb (done task)) task in
                      setCompleted (done task') task')) ;;;
           saveTasksFile ;;;
           broadcastLastData ;;;
           ret true) w
      end
  end.

Definition resetAllTasks : M bool := λ w,
  match lastData w with
  | None => ret false w
  | Some _ =>
      (mutateItems (map (λ item, setCompleted false (setDone false item))) ;;;
       saveTasksFile ;;;
       broadcastLastData ;;;
       ret true) w
  end.

(** [rnd] stands for [Math.random().toString(36).substr(2, 9)]. *)
Definition addTask (rnd : string) (txt : string) : M bool := λ w,
  match lastData w with
  | None => ret false w
  | Some d =>
      let newTask :=
        mkItem ("task_" +:+ pretty (clock w) +:+ "_" +:+ rnd) txt false
          (Some false) None (Some (Js.len (items d))) in
      (mutateItems (λ l, l ++ [newTask]) ;;;
       saveTasksFile ;;;
       broadcastLastData ;;;
       ret true) w
  end.

Definition deleteTask (taskId : string) : M bool := λ w,
  match lastData w with
  | None => ret false w
  | Some d =>
      let taskIndex := Js.findIndex (hasId taskId) (items d) in
      if taskIndex =? -1 then ret false w else
      (mutateItems (Js.spliceOut taskIndex) ;;;
       mutateItems renumber ;;;
       saveTasksFile ;;;
       broadcastLastData ;;;
       ret true) w
  end.

Definition editTask (taskId newText : string) : M bool := λ w,
  match lastData w with
  | None => ret false w
  | Some d =>
      match Js.find (hasId taskId) (items d) with
      | None => ret false w
      | Some _ =>
          (mutateItems (updFirst (hasId taskId) (setText newText)) ;;;
           saveTasksFile ;;;
           broadcastLastData ;;;
           ret true) w
      end
  end.

(** [items[i] = items[j]; items[j] = task] followed by the two [order]
    assignments, as in the swap branches of the move methods. *)
Definition swapWith (i j : Z) (task : ChecklistItem)
    (l : list ChecklistItem) : list ChecklistItem :=
  let l1 := match Js.at_ l j with
            | Some other => Js.setAt i other l
            | None => l
            end in
  let l2 := Js.setAt j task l1 in
  let l3 := Js.updAt i (setOrder i) l2 in
  Js.updAt j (setOrder j) l3.

Definition moveTaskUp (taskId : string) : M bool := λ w,
  match lastData w with
  | None => ret false w
  | Some d =>
      if Js.len (items d) =? 0 then ret false w else
      let taskIndex := Js.findIndex (hasId taskId) (items d) in
      if taskIndex =? -1 then ret false w else
      match Js.at_ (items d) taskIndex with
      | None => ret false w
      | Some task =>
          ((if taskIndex =? 0
            then mutateItems (λ l, Js.spliceOut taskIndex l ++ [task]) ;;;
                 mutateItems renumber
            else mutateItems (swapWith taskIndex (taskIndex - 1) task)) ;;;
           debouncedSave ;;;
           broadcastLastData ;;;
           ret true) w
      end
  end.

Definition moveTaskDown (taskId : string) : M bool := λ w,
  match lastData w with
  | None => ret false w
  | Some d =>
      if Js.len (items d) =? 0 then ret false w else
      let taskIndex := Js.findIndex (hasId taskId) (items d) in
      if taskIndex =? -1 then ret false w else
      match Js.at_ (items d) taskIndex with
      | None => ret false w
      | Some task =>
          ((if taskIndex =? Js.len (items d) - 1
            then mutateItems (λ l, task :: Js.spliceOut taskIndex l) ;;;
                 mutateItems renumber
            else mutateItems (swapWith taskIndex (taskIndex + 1) task)) ;;;
           debouncedSave ;;;
           broadcastLastData ;;;
           ret true) w
      end
  end.

Definition moveTaskToPosition (taskId : string) (targetPosition : Z) : M bool := λ w,
  match lastData w with
  | None => ret false w
  | Some d =>
      if Js.len (items d) =? 0 then ret false w else
      let currentIndex := Js.findIndex (hasId taskId) (items d) in
      if currentIndex =? -1 then ret false w else
      let maxPosition := Js.len (items d) - 1 in
      let clampedPosition := Z.max 0 (Z.min targetPosition maxPosition) in
      if currentIndex =? clampedPosition then ret true w else
      match Js.at_ (items d) currentIndex with
      | None => ret false w
      | Some task =>
          (mutateItems (Js.spliceOut currentIndex) ;;;
           mutateItems (Js.spliceIn clampedPosition task) ;;;
           mutateItems renumber ;;;
           debouncedSave ;;;
           broadcastLastData ;;;
           ret true) w
      end
  end.

(** *** The Express routes *)

Definition adminToken : string := "devtoken".

(** [!value] on an optional string of the request body. *)
Definition missing (s : option string) : bool :=
  match truthy s with
  | None => true
  | Some _ => false
  end.

Definition authenticateAdmin (authorization : option string) (next : M unit) : M unit :=
  match truthy authorization with
  | None => emit (Respond 401 (BError "Missing or invalid authorization header"))
  | Some authHeader =>
      if negb (Js.startsWith "Bearer " authHeader)
      then emit (Respond 401 (BError "Missing or invalid authorization header"))
      else if negb (String.eqb (Js.substringFrom 7 authHeader) adminToken)
      then emit (Respond 403 (BError "Invalid admin token"))
      else next
  end.

Definition noData : M unit := emit (Respond 404 (BError "No tasks data available")).

(** The requests the routes distinguish, with the body fields they
    read; an absent or non-string field is [None], a [targetPosition]
    that is not a number is [None]. *)
Inductive Route :=
| GetTasks
| PostToggleNext
| PostToggle (id : option string)
| PostReset (confirm : bool)
| PostAdd (rnd : string) (text : option string)
| PostDelete (id : option string)
| PostEdit (id : option string) (text : option string)
| PostSelect (taskId : option string)
| PostMoveUp (id : option string)
| PostMoveDown (id : option string)
| PostMoveToPosition (taskId : option string) (targetPosition : option Z)
| GetControl.

Definition badText (txt : option string) : bool :=
  match txt with
  | None => true
  | Some s => missing txt || (String.length (Js.trim s) =? 0)%nat
  end.

Definition getTasks : M unit := λ w,
  match lastData w with
  | None => noData w
  | Some d =>
      emit (Respond 200 (BTasks (map (λ item,
        setCompleted (done item || default false (completed item) || false) item)
        (items d)))) w
  end.

Definition postToggleNext : M unit := λ w,
  match lastData w with
  | None => noData w
  | Some d =>
      match Js.find (λ item, negb (done item) && negb (default false (completed item))) (items d) with
      | None => emit (Respond 404 (BError "No incomplete tasks found")) w
      | Some firstIncomplete =>
          (toggleTaskById (id firstIncomplete) ;;;
           emit (Respond 200 (BToggled (id firstIncomplete)))) w
      end
  end.

Definition postToggle (taskId : option string) : M unit := λ w,
  if missing taskId then emit (Respond 400 (BError "Task ID is required")) w else
  match lastData w with
  | None => noData w
  | Some d =>
      match Js.find (hasId (default "" taskId)) (items d) with
      | None => emit (Respond 404 (BError "Task not found")) w
      | Some _ =>
          (toggleTaskById (default "" taskId) ;;;
           emit (Respond 200 (BToggled (default "" taskId)))) w
      end
  end.

Definition postReset (confirm : bool) : M unit := λ w,
  if negb confirm then emit (Respond 400 (BError "Confirmation required")) w else
  match lastData w with
  | None => noData w
  | Some _ =>
      (resetAllTasks ;;;
       emit (Respond 200 (BMessage "All tasks reset to incomplete"))) w
  end.

Definition postAdd (rnd : string) (txt : option string) : M unit := λ w,
  if badText txt then emit (Respond 400 (BError "Task text is required")) w else
  match lastData w with
  | None => noData w
  | Some _ =>
      (addTask rnd (Js.trim (default "" txt)) ;;;
       emit (Respond 200 (BMessage "Task added successfully"))) w
  end.

Definition postDelete (taskId : option string) : M unit := λ w,
  if missing taskId then emit (Respond 400 (BError "Task ID is required")) w else
  match lastData w with
  | None => noData w
  | Some d =>
      let taskIndex := Js.findIndex (hasId (default "" taskId)) (items d) in
      if taskIndex =? -1 then emit (Respond 404 (BError "Task not found")) w else
      match Js.at_ (items d) taskIndex with
      | None => ret tt w
      | Some deletedTask =>
          (deleteTask (default "" taskId) ;;;
           emit (Respond 200 (BDeleted (text deletedTask)))) w
      end
  end.

Definition postEdit (taskId txt : option string) : M unit := λ w,
  if missing taskId then emit (Respond 400 (BError "Task ID is required")) w else
  if badText txt then emit (Respond 400 (BError "Task text is required")) w else
  match lastData w with
  | None => noData w
  | Some d =>
      match Js.find (hasId (default "" taskId)) (items d) with
      | None => emit (Respond 404 (BError "Task not found")) w
      | Some task =>
          let oldText := text task in
          (editTask (default "" taskId) (Js.trim (default "" txt)) ;;;
           emit (Respond 200 (BEdited oldText (Js.trim (default "" txt))))) w
      end
  end.

Definition postSelect (taskId : option string) : M unit := λ w,
  match lastData w with
  | None => noData w
  | Some d =>
      match truthy taskId, Js.find (hasId (default "" taskId)) (items d) with
      | Some _, None => emit (Respond 404 (BError "Task not found")) w
      | _, _ =>
          (modify (setSelectedTaskId (truthy taskId)) ;;;
           broadcastSelectionUpdate ;;;
           (λ w, emit (Respond 200 (BSelected (selectedTaskId w))) w)) w
      end
  end.

Definition postMoveUp (taskId : option string) : M unit := λ w,
  if missing taskId then emit (Respond 400 (BError "Task ID is required")) w else
  match lastData w with
  | None => noData w
  | Some _ =>
      (let! success := moveTaskUp (default "" taskId) in
       if negb success
       then emit (Respond 404 (BError "Task not found or cannot move up"))
       else emit (Respond 200 (BMessage "Task moved up successfully"))) w
  end.

Definition postMoveDown (taskId : option string) : M unit := λ w,
  if missing taskId then emit (Respond 400 (BError "Task ID is required")) w else
  match lastData w with
  | None => noData w
  | Some _ =>
      (let! success := moveTaskDown (default "" taskId) in
       if negb success
       then emit (Respond 404 (BError "Task not found or cannot move down"))
       else emit (Respond 200 (BMessage "Task moved down successfully"))) w
  end.

Definition postMoveToPosition (taskId : option string) (targetPosition : option Z) : M unit := λ w,
  if missing taskId then emit (Respond 400 (BError "Task ID is required")) w else
  match targetPosition with
  | None => emit (Respond 400 (BError "Valid target position is required")) w
  | Some target =>
      if target <? 0
      then emit (Respond 400 (BError "Valid target position is required")) w
      else
      match lastData w with
      | None => noData w
      | Some _ =>
          (let! success := moveTaskToPosition (default "" taskId) target in
           if negb success
           then emit (Respond 404 (BError "Task not found or invalid position"))
           else emit (Respond 200 (BMessage "Task moved to position successfully"))) w
      end
  end.

Definition route (authorization : option string) (r : Route) : M unit :=
  match r with
  | GetTasks => getTasks
  | GetControl => emit (Respond 200 BPage)
  | PostToggleNext => authenticateAdmin authorization postToggleNext
  | PostToggle i => authenticateAdmin authorization (postToggle i)
  | PostReset c => authenticateAdmin authorization (postReset c)
  | PostAdd rnd t => authenticateAdmin authorization (postAdd rnd t)
  | PostDelete i => authenticateAdmin authorization (postDelete i)
  | PostEdit i t => authenticateAdmin authorization (postEdit i t)
  | PostSelect i => authenticateAdmin authorization (postSelect i)
  | PostMoveUp i => authenticateAdmin authorization (postMoveUp i)
  | PostMoveDown i => authenticateAdmin authorization (postMoveDown i)
  | PostMoveToPosition i p => authenticateAdmin authorization (postMoveToPosition i p)
  end.

(** *** The events the server reacts to *)

Inductive Event :=
| Http (authorization : option string) (r : Route)
| WsConnection (ws : nat)
| WsClose (ws : nat)
| WsError (ws : nat)
| FileChange
| SaveTimeout
| Stop.

(** [Set.prototype.add] and [delete] on the client registry. *)
Definition addClient (ws : nat) (l : list nat) : list nat :=
  if bool_decide (ws ∈ l) then l else l ++ [ws].
Definition deleteClient (ws : nat) (l : list nat) : list nat :=
  List.filter (λ c, negb (c =? ws)%nat) l.

Definition onConnection (ws : nat) : M unit :=
  modify (λ w, setClients (addClient ws (clients w)) w) ;;;
  (λ w, match lastData w with
        | Some d => sendToClient ws d w
        | None => ret tt w
        end).

Definition stop : M unit := λ w,
  (modify (setBroadcastInterval None) ;;;
   (λ w, match saveTimeout w with
         | Some _ => (modify (setSaveTimeout None) ;;; saveTasksFile ;;; ret tt) w
         | None => ret tt w
         end) ;;;
   (λ w, (tt, setClients [] w,
          map CloseSocket (List.filter (λ c, bool_decide (c ∈ openSockets w)) (clients w))))) w.

(** The callback of the debounce timeout runs only while the timeout
    is pending. *)
Definition handle (e : Event) : M unit :=
  match e with
  | Http authorization r => route authorization r
  | WsConnection ws => onConnection ws
  | WsClose ws => modify (λ w, setClients (deleteClient ws (clients w)) w)
  | WsError ws => modify (λ w, setClients (deleteClient ws (clients w)) w)
  | FileChange => loadAndBroadcast
  | SaveTimeout =>
      λ w, match saveTimeout w with
           | Some _ => saveTimeoutFires w
           | None => ret tt w
           end
  | Stop => stop
  end.

Fixpoint run (es : list Event) : M unit :=
  match es with
  | [] => ret tt
  | e :: es' => handle e ;;; run es'
  end.

(** The constructor: routes, socket handlers and the file watcher are
    set up, the file is loaded; no interval is started. *)
Definition construct (now : Z) (f : FileContent) (writable : bool) : World :=
  after (loadAndBroadcast
           (mkWorld None [] None None None now f writable [] [])).

(** *** Timed runs

    A request arriving at time [t] is served after a debounce timeout
    that was due by then has fired. *)
Definition elapseTo (t : Z) : M unit := λ w,
  match saveTimeout w with
  | Some due =>
      if due <=? t
      then (modify (setClock due) ;;; saveTimeoutFires ;;; modify (setClock t)) w
      else modify (setClock t) w
  | None => modify (setClock t) w
  end.

Fixpoint runTimed (es : list (Z * Event)) : M unit :=
  match es with
  | [] => ret tt
  | (t, e) :: es' => elapseTo t ;;; handle e ;;; runTimed es'
  end.

(** *** Calls of the store's methods, one after the other *)

Inductive Mutation :=
| Toggle (taskId : string)
| Reset
| Add (rnd : string) (txt : string)
| Delete (taskId : string)
| Edit (taskId : string) (newText : string)
| MoveUp (taskId : string)
| MoveDown (taskId : string)
| MoveToPosition (taskId : string) (targetPosition : Z).

Definition perform (m : Mutation) : M bool :=
  match m with
  | Toggle i => toggleTaskById i
  | Reset => resetAllTasks
  | Add rnd t => addTask rnd t
  | Delete i => deleteTask i
  | Edit i t => editTask i t
  | MoveUp i => moveTaskUp i
  | MoveDown i => moveTaskDown i
  | MoveToPosition i p => moveTaskToPosition i p
  end.

Fixpoint performAll (ms : list Mutation) : M unit :=
  match ms with
  | [] => ret tt
  | m :: ms' => perform m ;;; performAll ms'
  end.



Definition reorders (m : Mutation) : bool :=
  match m with
  | MoveUp _ | MoveDown _ | MoveToPosition _ _ => true
  | _ => false
  end.

(** The items of the store, none before a file was loaded. *)
Definition storeItems (w : World) : list ChecklistItem :=
  match lastData w with
  | Some d => items d
  | None => []
  end.


(** What one effect list wrote to the file and sent to all clients. *)
Definition writes (es : list Effect) : list ChecklistData :=
  omap (λ e, match e with WriteFile d => Some d | _ => None end) es.

Definition broadcasts (es : list Effect) : list (list nat * Payload) :=
  omap (λ e, match e with Broadcast r p => Some (r, p) | _ => None end) es.

(** The file as [JSON.stringify(this.lastData)] leaves it. *)
Definition stored (d : ChecklistData) : FileContent :=
  FileJson (Some (items d)) (Some (ts d)) (dataSelectedTaskId d).

End Server.

(** ** The earlier WebSocket-only server ([server.ts])

    It has no HTTP routes and no selection; its items carry no
    [completed] or [order]. The types of [Server] are reused with those
    fields unused. *)
Module Legacy.
Import Server.

(** [broadcastToAll]: the data object itself is sent. *)
Definition broadcastToAll (data : ChecklistData) : M unit := λ w,
  if Js.len (clients w) =? 0 then ret tt w
  else fanOut (Snapshot (items data) (ts data) None) w.

Definition loadAndBroadcast : M unit :=
  let! data := loadTasksFile in
  match data with
  | Some d => modify (setLastData (Some d)) ;;; broadcastToAll d
  | None => ret tt
  end.

(** [startPeriodicBroadcast]: an interval of 2 seconds. *)
Definition startPeriodicBroadcast : M unit :=
  modify (setBroadcastInterval (Some 2000)).

(** The callback of that interval. *)
Definition intervalFires : M unit := λ w,
  match lastData w with
  | Some d => if 0 <? Js.len (clients w) then broadcastToAll d w else ret tt w
  | None => ret tt w
  end.

Inductive Event :=
| WsConnection (ws : nat)
| WsClose (ws : nat)
| WsError (ws : nat)
| FileChange
| Interval.

Definition handle (e : Event) : M unit :=
  match e with
  | WsConnection ws => onConnection ws
  | WsClose ws => modify (λ w, setClients (deleteClient ws (clients w)) w)
  | WsError ws => modify (λ w, setClients (deleteClient ws (clients w)) w)
  | FileChange => loadAndBroadcast
  | Interval =>
      λ w, match broadcastInterval w with
           | Some _ => intervalFires w
           | None => ret tt w
           end
  end.

Definition construct (now : Z) (f : FileContent) : World :=
  after ((loadAndBroadcast ;;; startPeriodicBroadcast)
           (mkWorld None [] None None None now f false [] [])).

Fixpoint run (es : list Event) : M unit :=
  match es with
  | [] => ret tt
  | e :: es' => handle e ;;; run es'
  end.

End Legacy.

(** ** The overlay's data source ([ChecklistDataSource] in [lib/ws.ts]) *)
Module Agent.

Inductive Source := SrcWs | SrcPoll.

(** The fields of the class that change, followed by what the browser
    holds for it: the sockets that exist and have not closed, the
    reconnect timeouts and the start timeout that are pending, and
    whether [new WebSocket] throws. *)
Record State := mkState {
  ws : bool;
  pollInterval : bool;
  reconnectTimeout : option Z;
  isConnected : bool;
  currentSource : Source;
  reconnectAttempts : Z;
  maxReconnectAttempts : Z;
  liveSockets : nat;
  pendingReconnects : nat;
  startTimeoutPending : bool;
  constructorThrows : bool
}.

Inductive Action :=
| Connect
| ArmReconnect (delay : Z)
| Status (connected : bool) (source : Source)
| Fetch
| CloseWs.

Definition fresh (throws : bool) : State :=
  mkState false false None false SrcPoll 0 5 0 0 false throws.

Definition seqR (m k : State → State * list Action) : State → State * list Action :=
  λ s, let r1 := m s in let r2 := k r1.1 in (r2.1, r1.2 ++ r2.2).
Notation "m >>> k" := (seqR m k) (at level 100, right associativity).

Definition skip : State → State * list Action := λ s, (s, []).
Definition act (a : Action) : State → State * list Action := λ s, (s, [a]).
Definition upd (f : State → State) : State → State * list Action := λ s, (f s, []).

Definition setWs v s := mkState v (pollInterval s) (reconnectTimeout s)
  (isConnected s) (currentSource s) (reconnectAttempts s)
  (maxReconnectAttempts s) (liveSockets s) (pendingReconnects s)
  (startTimeoutPending s) (constructorThrows s).
Definition setPollInterval v s := mkState (ws s) v (reconnectTimeout s)
  (isConnected s) (currentSource s) (reconnectAttempts s)
  (maxReconnectAttempts s) (liveSockets s) (pendingReconnects s)
  (startTimeoutPending s) (constructorThrows s).
Definition setReconnectTimeout v s := mkState (ws s) (pollInterval s) v
  (isConnected s) (currentSource s) (reconnectAttempts s)
  (maxReconnectAttempts s) (liveSockets s) (pendingReconnects s)
  (startTimeoutPending s) (constructorThrows s).
Definition setIsConnected v s := mkState (ws s) (pollInterval s)
  (reconnectTimeout s) v (currentSource s) (reconnectAttempts s)
  (maxReconnectAttempts s) (liveSockets s) (pendingReconnects s)
  (startTimeoutPending s) (constructorThrows s).
Definition setCurrentSource v s := mkState (ws s) (pollInterval s)
  (reconnectTimeout s) (isConnected s) v (reconnectAttempts s)
  (maxReconnectAttempts s) (liveSockets s) (pendingReconnects s)
  (startTimeoutPending s) (constructorThrows s).
Definition setReconnectAttempts v s := mkState (ws s) (pollInterval s)
  (reconnectTimeout s) (isConnected s) (currentSource s) v
  (maxReconnectAttempts s) (liveSockets s) (pendingReconnects s)
  (startTimeoutPending s) (constructorThrows s).
Definition setLiveSockets v s := mkState (ws s) (pollInterval s)
  (reconnectTimeout s) (isConnected s) (currentSource s)
  (reconnectAttempts s) (maxReconnectAttempts s) v (pendingReconnects s)
  (startTimeoutPending s) (constructorThrows s).
Definition setPendingReconnects v s := mkState (ws s) (pollInterval s)
  (reconnectTimeout s) (isConnected s) (currentSource s)
  (reconnectAttempts s) (maxReconnectAttempts s) (liveSockets s) v
  (startTimeoutPending s) (constructorThrows s).
Definition setStartTimeoutPending v s := mkState (ws s) (pollInterval s)
  (reconnectTimeout s) (isConnected s) (currentSource s)
  (reconnectAttempts s) (maxReconnectAttempts s) (liveSockets s)
  (pendingReconnects s) v (constructorThrows s).

(** [pollOnce] issues a fetch; its answer arrives later. *)
Definition pollOnce : State → State * list Action := act Fetch.

Definition startPolling : State → State * list Action := λ s,
  if pollInterval s then skip s else
  (upd (setCurrentSource SrcPoll) >>>
   act (Status false SrcPoll) >>>
   pollOnce >>>
   upd (setPollInterval true)) s.

Definition stopPolling : State → State * list Action := λ s,
  if pollInterval s then upd (setPollInterval false) s else skip s.

Definition connectWebSocket : State → State * list Action := λ s,
  if constructorThrows s then startPolling s else
  (upd (setWs true) >>>
   upd (λ s, setLiveSockets (S (liveSockets s)) s) >>>
   act Connect) s.

(** [Math.min(1000 * Math.pow(2, this.reconnectAttempts), 30000)]. *)
Definition reconnectDelay (attempts : Z) : Z :=
  Z.min (1000 * 2 ^ attempts) 30000.

Definition scheduleReconnect : State → State * list Action := λ s,
  let delay := reconnectDelay (reconnectAttempts s) in
  (upd (λ s, setReconnectAttempts (reconnectAttempts s + 1) s) >>>
   upd (setReconnectTimeout (Some delay)) >>>
   upd (λ s, setPendingReconnects (S (pendingReconnects s)) s) >>>
   act (ArmReconnect delay)) s.

Definition onopen : State → State * list Action :=
  upd (setIsConnected true) >>>
  upd (setCurrentSource SrcWs) >>>
  upd (setReconnectAttempts 0) >>>
  stopPolling >>>
  act (Status true SrcWs).

Definition onclose : State → State * list Action :=
  upd (setIsConnected false) >>>
  upd (setWs false) >>>
  (λ s, if reconnectAttempts s <? maxReconnectAttempts s
        then scheduleReconnect s
        else startPolling s).

Definition cleanup : State → State * list Action :=
  (λ s, if ws s then (act CloseWs >>> upd (setWs false)) s else skip s) >>>
  (λ s, if pollInterval s then upd (setPollInterval false) s else skip s) >>>
  (λ s, match reconnectTimeout s with
        | Some _ => (upd (λ s, setPendingReconnects (pred (pendingReconnects s)) s) >>>
                     upd (setReconnectTimeout None)) s
        | None => skip s
        end) >>>
  upd (setIsConnected false).

Definition start : State → State * list Action :=
  connectWebSocket >>> upd (setStartTimeoutPending true).

Definition forceReload : State → State * list Action := λ s,
  match currentSource s with
  | SrcPoll => pollOnce s
  | SrcWs => skip s
  end.

Inductive Event :=
| Start
| StartTimeout
| Open
| Close
| Error
| ReconnectTimeout
| PollTick
| ForceReload
| StopAgent.

(** A callback runs only when the browser has something to call it
    for: a socket that exists, a timeout that is pending. *)
Definition step (e : Event) : State → State * list Action := λ s,
  match e with
  | Start => start s
  | StartTimeout =>
      if startTimeoutPending s
      then (upd (setStartTimeoutPending false) >>>
            (λ s, if isConnected s then skip s else startPolling s)) s
      else skip s
  | Open => if (0 <? liveSockets s)%nat then onopen s else skip s
  | Close =>
      if (0 <? liveSockets s)%nat
      then (upd (λ s, setLiveSockets (pred (liveSockets s)) s) >>> onclose) s
      else skip s
  | Error => skip s
  | ReconnectTimeout =>
      if (0 <? pendingReconnects s)%nat
      then (upd (λ s, setPendingReconnects (pred (pendingReconnects s)) s) >>>
            connectWebSocket) s
      else skip s
  | PollTick => if pollInterval s then pollOnce s else skip s
  | ForceReload => forceReload s
  | StopAgent => cleanup s
  end.

Fixpoint run (es : list Event) : State → State * list Action :=
  match es with
  | [] => skip
  | e :: es' => step e >>> run es'
  end.

Definition delays (l : list Action) : list Z :=
  omap (λ a, match a with ArmReconnect d => Some d | _ => None end) l.

Definition connects (l : list Action) : nat :=
  length (List.filter (λ a, match a with Connect => true | _ => false end) l).

End Agent.

(** ** The controller's task manager ([TaskManager] in [tasks.ts]) *)
Module Controller.

(** [interface Task] of [api.ts]. *)
Record Task := mkTask {
  id : string;
  text : string;
  completed : bool;
  order : option Z
}.

Record TaskManager := mkManager {
  tasks : list Task;
  selectedIndex : Z
}.

(** [(a.order || 0)]. *)
Definition orderOr0 (t : Task) : Z := default 0 (order t).

(** [Array.prototype.sort] with the comparator
    [(a, b) => (a.order || 0) - (b.order || 0)]; the sort is stable. *)
Fixpoint insertByOrder (t : Task) (l : list Task) : list Task :=
  match l with
  | [] => [t]
  | x :: l' =>
      if orderOr0 t <=? orderOr0 x then t :: l else x :: insertByOrder t l'
  end.

Definition sortByOrder (l : list Task) : list Task :=
  foldr insertByOrder [] l.

Definition maintainSelection (previousTasks : list Task) (m : TaskManager) : TaskManager :=
  let set i := mkManager (tasks m) i in
  if (Js.len previousTasks =? 0) || (Js.len (tasks m) =? 0) then set 0 else
  let previousSelectedTask := Js.at_ previousTasks (selectedIndex m) in
  let newIndex :=
    match previousSelectedTask with
    | Some prev => Js.findIndex (λ task, String.eqb (id task) (id prev)) (tasks m)
    | None => -1
    end in
  if negb (newIndex =? -1) then set newIndex else
  let previousTaskIds : gset string := list_to_set (map id previousTasks) in
  let isNew := λ task : Task, negb (bool_decide (id task ∈ previousTaskIds)) in
  let newTasks := List.filter isNew (tasks m) in
  let firstNewTaskIndex := Js.findIndex isNew (tasks m) in
  if (Js.len previousTasks <? Js.len (tasks m))
     && (0 <? Js.len newTasks) && negb (firstNewTaskIndex =? -1)
  then set firstNewTaskIndex
  else
    let clamped := Z.min (selectedIndex m) (Js.len (tasks m) - 1) in
    set (Z.max 0 clamped).

Definition updateTasks (newTasks : list Task) (m : TaskManager) : TaskManager :=
  let previousTasks := tasks m in
  maintainSelection previousTasks (mkManager (sortByOrder newTasks) (selectedIndex m)).

(** [getSelectedTask]. *)
Definition getSelectedTask (m : TaskManager) : option Task :=
  if (Js.len (tasks m) =? 0) || (selectedIndex m <? 0)
     || (Js.len (tasks m) <=? selectedIndex m)
  then None
  else Js.at_ (tasks m) (selectedIndex m).

(** [broadcastSelection]: the argument of [api.selectTask], which is
    [selectedTask?.id || null]. *)
Definition broadcastSelection (m : TaskManager) : option string :=
  match getSelectedTask m with
  | Some t => Server.truthy (Some (id t))
  | None => None
  end.

(** [selectNext], [selectPrevious] and [selectNextIncomplete]: the
    manager afterwards and the selections sent to the server. *)
Definition selectNext (m : TaskManager) : TaskManager * list (option string) :=
  if Js.len (tasks m) =? 0 then (m, []) else
  let m' := mkManager (tasks m) (Z.rem (selectedIndex m + 1) (Js.len (tasks m))) in
  (m', [broadcastSelection m']).

Definition selectPrevious (m : TaskManager) : TaskManager * list (option string) :=
  if Js.len (tasks m) =? 0 then (m, []) else
  let m' := mkManager (tasks m)
              (if selectedIndex m =? 0 then Js.len (tasks m) - 1
               else selectedIndex m - 1) in
  (m', [broadcastSelection m']).

Definition selectNextIncomplete (m : TaskManager) : TaskManager * list (option string) :=
  if Js.len (tasks m) =? 0 then (m, []) else
  let incompleteIndex := Js.findIndex (λ task, negb (completed task)) (tasks m) in
  if negb (incompleteIndex =? -1)
  then let m' := mkManager (tasks m) incompleteIndex in (m', [broadcastSelection m'])
  else (m, []).

End Controller.

(** * Properties *)

Import Server.

(** ** Properties stated about the store *)

(** Each task's [order] is its position in the array: the [order]
    fields read [0, 1, …, N-1] in array order. *)
Definition positional (l : list ChecklistItem) : Prop :=
  map order l = map (λ i, Some (Z.of_nat i)) (seq 0 (length l)).

(** The [order] fields, as a multiset, are [0, …, N-1]. *)
Definition denseOrders (l : list ChecklistItem) : Prop :=
  map order l ≡ₚ map (λ i, Some (Z.of_nat i)) (seq 0 (length l)).

(** The selection carried by a payload names one of its tasks. *)
Definition payloadSel (p : Payload) : option string :=
  match p with
  | TasksUpdated _ sel => sel
  | Snapshot _ _ sel => sel
  end.

Definition payloadItems (p : Payload) : list ChecklistItem :=
  match p with
  | TasksUpdated l _ => l
  | Snapshot l _ _ => l
  end.

Definition selectionValid (p : Payload) : Prop :=
  ∀ s, payloadSel p = Some s → s ∈ map id (payloadItems p).

(** The two completion flags of a task agree; the legacy flag is absent
    or agrees. *)
Definition flagsAgree (t : ChecklistItem) : Prop :=
  completed t = Some (done t).




(** Events that change the state: a mutating or selecting request, or a
    change of the tasks file. *)
Definition changeEvent (e : Event) : bool :=
  match e with
  | Http _ GetTasks | Http _ GetControl => false
  | Http _ _ => true
  | FileChange => true
  | _ => false
  end.



(** ** Every method is a decision followed by one of two endings

    What a method decides from the items alone, and the two endings
    shared by the methods: change the items, then save at once or save
    later, then broadcast. [perform_plan] below shows that the methods
    are exactly that. *)

Inductive Plan :=
| Refuse
| Nothing
| SaveNow (l' : list ChecklistItem)
| SaveLater (l' : list ChecklistItem).

Definition toggled (task : ChecklistItem) : ChecklistItem :=
  setCompleted (negb (done task)) (setDone (negb (done task)) task).

Definition cleared (item : ChecklistItem) : ChecklistItem :=
  setCompleted false (setDone false item).

Definition plan (m : Mutation) (now : Z) (l : list ChecklistItem) : Plan :=
  match m with
  | Toggle i =>
      if Js.findIndex (hasId i) l =? -1 then Refuse
      else SaveNow (updFirst (hasId i) toggled l)
  | Reset => SaveNow (map cleared l)
  | Add rnd t =>
      SaveNow (l ++ [mkItem ("task_" +:+ pretty now +:+ "_" +:+ rnd) t false
                       (Some false) None (Some (Js.len l))])
  | Delete i =>
      if Js.findIndex (hasId i) l =? -1 then Refuse
      else SaveNow (renumber (Js.spliceOut (Js.findIndex (hasId i) l) l))
  | Edit i t =>
      if Js.findIndex (hasId i) l =? -1 then Refuse
      else SaveNow (updFirst (hasId i) (setText t) l)
  | MoveUp i =>
      let k := Js.findIndex (hasId i) l in
      match Js.at_ l k with
      | None => Refuse
      | Some task =>
          if k =? 0 then SaveLater (renumber (Js.spliceOut k l ++ [task]))
          else SaveLater (swapWith k (k - 1) task l)
      end
  | MoveDown i =>
      let k := Js.findIndex (hasId i) l in
      match Js.at_ l k with
      | None => Refuse
      | Some task =>
          if k =? Js.len l - 1 then SaveLater (renumber (task :: Js.spliceOut k l))
          else SaveLater (swapWith k (k + 1) task l)
      end
  | MoveToPosition i p =>
      let k := Js.findIndex (hasId i) l in
      let c := Z.max 0 (Z.min p (Js.len l - 1)) in
      match Js.at_ l k with
      | None => Refuse
      | Some task =>
          if k =? c then Nothing
          else SaveLater (renumber (Js.spliceIn c task (Js.spliceOut k l)))
      end
  end.

Definition savedNow (l' : list ChecklistItem) : M bool :=
  mutateItems (λ _, l') ;;; saveTasksFile ;;; broadcastLastData ;;; ret true.

Definition savedLater (l' : list ChecklistItem) : M bool :=
  mutateItems (λ _, l') ;;; debouncedSave ;;; broadcastLastData ;;; ret true.

Definition carryOut (p : Plan) : M bool :=
  match p with
  | Refuse => ret false
  | Nothing => ret true
  | SaveNow l' => savedNow l'
  | SaveLater l' => savedLater l'
  end.

(** The items a method leaves in the store. *)
Definition planned (p : Plan) (l : list ChecklistItem) : list ChecklistItem :=
  match p with
  | SaveNow l' | SaveLater l' => l'
  | _ => l
  end.

(** The clients [broadcastToAll] reaches, and what it emits for the
    items [l']. *)
Definition fanned (w : World) : list nat :=
  List.filter (sendable w) (clients w).

Definition announce (l' : list ChecklistItem) (w : World) : list Effect :=
  if Js.len (clients w) =? 0 then []
  else [Broadcast (fanned w) (TasksUpdated l' (truthy (selectedTaskId w)))].

Definition remaining (w : World) : list nat :=
  if Js.len (clients w) =? 0 then clients w else fanned w.


(** The two steps of [POST /tasks/select] that touch the state. *)
Definition selecting (sel : option string) : M unit :=
  modify (setSelectedTaskId sel) ;;; broadcastSelectionUpdate.

(** No event of the list is a new [start] of the agent. *)
Definition sameSession (es : list Agent.Event) : bool :=
  forallb (λ e, match e with Agent.Start => false | _ => true end) es.

(** ** Worlds and tasks used in the examples *)
Module Example.

Definition task (i : string) (o : Z) : ChecklistItem :=
  mkItem i i false None None (Some o).

Definition world (l : list ChecklistItem) : World :=
  mkWorld (Some (mkData l 100 None)) [1%nat] None None None 5000
    FileMissing true [1%nat] [].

Definition bearer : option string := Some "Bearer devtoken".

(** A file whose [order] fields are dense but do not follow the array. *)
Definition shuffled : list ChecklistItem :=
  [task "x" 1; task "y" 0; task "z" 2].

Definition abc : list ChecklistItem :=
  [task "a" 0; task "b" 1; task "c" 2].

(** The controller's view of two tasks and of a third, added one. *)
Definition seen (i : string) (o : Z) : Controller.Task :=
  Controller.mkTask i i false (Some o).

(** The push channel failing again and again after [start]: each
    failed cycle is a close followed by the reconnect timeout. *)
Definition failing (cycles : nat) : list Agent.Event :=
  Agent.Start :: Agent.StartTimeout ::
  concat (replicate cycles [Agent.Close; Agent.ReconnectTimeout]) ++ [Agent.Close].

(** A task whose legacy flag was left set in the file. *)
Definition stale : ChecklistItem :=
  mkItem "s" "s" false (Some true) None (Some 0).

End Example.

(** ** Further notions used in the properties *)

(** A task with its [order] left out of the comparison. *)
Definition unordered (t : ChecklistItem) : ChecklistItem := setOrder 0 t.

(** The test of [POST /tasks/toggle-next] for an incomplete task. *)
Definition incomplete (item : ChecklistItem) : bool :=
  negb (done item) && negb (default false (completed item)).

(** The only header [authenticateAdmin] lets through. *)
Definition adminHeader : string := "Bearer " +:+ adminToken.

(** The requests that go through [authenticateAdmin]. *)
Definition guarded (r : Route) : bool :=
  match r with
  | GetTasks | GetControl => false
  | _ => true
  end.


(** The agent has at most one socket or pending reconnect at a time. *)
Definition oneChannel (s : Agent.State) : Prop :=
  (Agent.liveSockets s + Agent.pendingReconnects s ≤ 1)%nat.

(** While the poll interval runs, the source is the poll. *)
Definition pollingIsPoll (s : Agent.State) : Prop :=
  Agent.pollInterval s = true → Agent.currentSource s = Agent.SrcPoll.

(** The controller's list is in ascending [order], absent orders
    counting as 0. *)
Definition ascending (l : list Controller.Task) : Prop :=
  StronglySorted (λ a b, Controller.orderOr0 a ≤ Controller.orderOr0 b) l.

(** Every event of the list is an HTTP request. *)
Definition onlyRequests (es : list Event) : bool :=
  forallb (λ e, match e with Http _ _ => true | _ => false end) es.




(** ** The monad and the array primitives *)

Lemma bind_unfold {A B} (m : M A) (k : A → M B) w :
  bind m k w =
    (result (k (result (m w)) (after (m w))),
     after (k (result (m w)) (after (m w))),
     effects (m w) ++ effects (k (result (m w)) (after (m w)))).
Proof. reflexivity. Qed.

Lemma findIndexFrom_range {A} (p : A → bool) l i :
  Js.findIndexFrom p i l = -1 ∨
  i ≤ Js.findIndexFrom p i l < i + Js.len l.
Proof.
  revert i. induction l as [|x l IH]; intros i; simpl; [by left|].
  destruct (p x).
  - right. unfold Js.len. simpl length. lia.
  - destruct (IH (i + 1)) as [->|H]; [by left|right].
    unfold Js.len in *. simpl length. lia.
Qed.

Lemma findIndexFrom_shift {A} (p : A → bool) l i :
  0 ≤ i →
  Js.findIndexFrom p i l =
    if Js.findIndexFrom p 0 l =? -1 then -1 else i + Js.findIndexFrom p 0 l.
Proof.
  revert i. induction l as [|x l IH]; intros i Hi; simpl; [done|].
  destruct (p x); simpl; [lia|].
  rewrite (IH (i + 1)) by lia. rewrite (IH (0 + 1)) by lia.
  destruct (Js.findIndexFrom p 0 l =? -1) eqn:E; [done|].
  apply Z.eqb_neq in E.
  destruct (findIndexFrom_range p l 0) as [?|?]; [done|].
  destruct (0 + 1 + Js.findIndexFrom p 0 l =? -1) eqn:E'; [apply Z.eqb_eq in E'|]; lia.
Qed.

Lemma findIndex_cons {A} (p : A → bool) x l :
  Js.findIndex p (x :: l) =
    if p x then 0
    else if Js.findIndex p l =? -1 then -1 else 1 + Js.findIndex p l.
Proof.
  unfold Js.findIndex. simpl. destruct (p x); [done|].
  by rewrite (findIndexFrom_shift p l (0 + 1)) by lia.
Qed.

Lemma findIndex_range {A} (p : A → bool) l :
  Js.findIndex p l = -1 ∨ 0 ≤ Js.findIndex p l < Js.len l.
Proof.
  unfold Js.findIndex. destruct (findIndexFrom_range p l 0); [by left|right; lia].
Qed.

(** [findIndex] returns the position of the first match. *)
Lemma findIndex_found {A} (p : A → bool) l :
  Js.findIndex p l ≠ -1 →
  ∃ k x, Js.findIndex p l = Z.of_nat k ∧ l !! k = Some x ∧ p x = true ∧
         ∀ j y, (j < k)%nat → l !! j = Some y → p y = false.
Proof.
  induction l as [|x l IH]; [done|].
  rewrite findIndex_cons. destruct (p x) eqn:Hp.
  - intros _. exists 0%nat, x. split_and!; [done|done|done|intros; lia].
  - destruct (Js.findIndex p l =? -1) eqn:E; [done|]. intros _.
    apply Z.eqb_neq in E. destruct (IH E) as (k & y & Hk & Hl & Hy & Hlt).
    exists (S k), y. split_and!; [lia|done|done|].
    intros [|j] z Hj Hz; [by simplify_eq/=|]. apply (Hlt j); [lia|done].
Qed.

Lemma findIndex_absent {A} (p : A → bool) l :
  Js.findIndex p l = -1 ↔ Forall (λ x, p x = false) l.
Proof.
  induction l as [|x l IH]; [by split|].
  rewrite findIndex_cons, Forall_cons. destruct (p x).
  - split; [done|]. by intros [? _].
  - destruct (Js.findIndex p l =? -1) eqn:E.
    + apply Z.eqb_eq in E. split; [|done]. intros _. split; [done|]. by apply IH.
    + apply Z.eqb_neq in E.
      destruct (findIndex_range p l) as [?|?]; [done|].
      split; [lia|]. intros [_ HF]. by apply IH in HF.
Qed.

Lemma find_findIndex {A} (p : A → bool) l :
  Js.find p l = None ↔ Js.findIndex p l = -1.
Proof.
  rewrite findIndex_absent. induction l as [|x l IH]; simpl; [by split|].
  rewrite Forall_cons. destruct (p x); [by split; [|intros [? _]]|].
  rewrite IH. split; [by intros ?; split|by intros [_ ?]].
Qed.

Lemma at_of_nat {A} (l : list A) k : Js.at_ l (Z.of_nat k) = l !! k.
Proof.
  unfold Js.at_. destruct (Z.of_nat k <? 0) eqn:E; [apply Z.ltb_lt in E; lia|].
  by rewrite Nat2Z.id.
Qed.

Lemma hasId_refl t : hasId (id t) t = true.
Proof. apply String.eqb_refl. Qed.

Lemma hasId_ne s t : id t ≠ s → hasId s t = false.
Proof. intros. by apply String.eqb_neq. Qed.

Lemma at_findIndex {A} (p : A → bool) (l : list A) :
  Js.findIndex p l ≠ -1 → ∃ x, Js.at_ l (Js.findIndex p l) = Some x ∧ p x = true.
Proof.
  intros H. destruct (findIndex_found p l H) as (k & x & -> & Hk & Hp & _).
  exists x. by rewrite at_of_nat.
Qed.

Lemma len_pos_of_found {A} (p : A → bool) (l : list A) :
  Js.findIndex p l ≠ -1 → (Js.len l =? 0) = false.
Proof.
  intros H. destruct (findIndex_range p l); [done|]. apply Z.eqb_neq. lia.
Qed.

Ltac open_world w :=
  destruct w as [ld cl sel st bi ck f fw os thr]; simpl in *; simplify_eq/=.

Ltac unfold_monad :=
  cbv [bind ret modify emit mutateItems debouncedSave broadcastLastData
       broadcastToAll fanOut saveTasksFile
       savedNow savedLater carryOut after result effects].

(** The methods are their plan carried out. *)
Lemma perform_plan m w d :
  lastData w = Some d →
  perform m w = carryOut (plan m (clock w) (items d)) w.
Proof.
  intros Hd. open_world w.
  destruct m as [i| |rnd t|i|i t|i|i|i p]; simpl.
  - unfold toggleTaskById; simpl.
    destruct (Js.find (hasId i) (items d)) eqn:E.
    + destruct (Js.findIndex (hasId i) (items d) =? -1) eqn:E'.
      { apply Z.eqb_eq, find_findIndex in E'. congruence. }
      reflexivity.
    + apply find_findIndex in E. by rewrite E.
  - reflexivity.
  - reflexivity.
  - unfold deleteTask; simpl.
    destruct (Js.findIndex (hasId i) (items d) =? -1); reflexivity.
  - unfold editTask; simpl.
    destruct (Js.find (hasId i) (items d)) eqn:E.
    + destruct (Js.findIndex (hasId i) (items d) =? -1) eqn:E'.
      { apply Z.eqb_eq, find_findIndex in E'. congruence. }
      reflexivity.
    + apply find_findIndex in E. by rewrite E.
  - unfold moveTaskUp; simpl.
    destruct (Z.eq_dec (Js.findIndex (hasId i) (items d)) (-1)) as [E|E].
    + rewrite E. simpl. by destruct (Js.len (items d) =? 0).
    + rewrite (len_pos_of_found _ _ E).
      destruct (at_findIndex _ _ E) as (task & -> & _).
      apply Z.eqb_neq in E. rewrite E.
      destruct (Js.findIndex (hasId i) (items d) =? 0); reflexivity.
  - unfold moveTaskDown; simpl.
    destruct (Z.eq_dec (Js.findIndex (hasId i) (items d)) (-1)) as [E|E].
    + rewrite E. simpl. by destruct (Js.len (items d) =? 0).
    + rewrite (len_pos_of_found _ _ E).
      destruct (at_findIndex _ _ E) as (task & -> & _).
      apply Z.eqb_neq in E. rewrite E.
      destruct (Js.findIndex (hasId i) (items d) =? Js.len (items d) - 1); reflexivity.
  - unfold moveTaskToPosition; simpl.
    destruct (Z.eq_dec (Js.findIndex (hasId i) (items d)) (-1)) as [E|E].
    + rewrite E. simpl. by destruct (Js.len (items d) =? 0).
    + rewrite (len_pos_of_found _ _ E).
      destruct (at_findIndex _ _ E) as (task & -> & _).
      apply Z.eqb_neq in E. rewrite E.
      destruct (Js.findIndex (hasId i) (items d)
                  =? Z.max 0 (Z.min p (Js.len (items d) - 1))); reflexivity.
Qed.

Lemma perform_unloaded m w :
  lastData w = None → perform m w = (false, w, []).
Proof.
  intros Hd. open_world w. by destruct m.
Qed.

(** ** The two endings *)

Lemma savedNow_eq w d l' :
  lastData w = Some d →
  savedNow l' w =
    (true,
     mkWorld (Some (mkData l' (clock w / 1000) (dataSelectedTaskId d)))
       (remaining w) (selectedTaskId w) (saveTimeout w) (broadcastInterval w)
       (clock w)
       (if fileWritable w
        then stored (mkData l' (clock w / 1000) (dataSelectedTaskId d))
        else file w)
       (fileWritable w) (openSockets w) (throwingSockets w),
     (if fileWritable w
      then [WriteFile (mkData l' (clock w / 1000) (dataSelectedTaskId d))]
      else [SaveFailed]) ++ announce l' w).
Proof.
  intros Hd. open_world w. unfold_monad. unfold announce, remaining. simpl.
  destruct fw; simpl; destruct (Js.len cl =? 0); reflexivity.
Qed.

Lemma savedLater_eq w d l' :
  lastData w = Some d →
  savedLater l' w =
    (true,
     mkWorld (Some (mkData l' (ts d) (dataSelectedTaskId d)))
       (remaining w) (selectedTaskId w) (Some (clock w + 100))
       (broadcastInterval w) (clock w) (file w)
       (fileWritable w) (openSockets w) (throwingSockets w),
     announce l' w).
Proof.
  intros Hd. open_world w. unfold_monad. unfold announce, remaining. simpl.
  destruct (Js.len cl =? 0); reflexivity.
Qed.

Lemma carryOut_items p w d :
  lastData w = Some d →
  storeItems (after (carryOut p w)) = planned p (items d).
Proof.
  intros Hd. destruct p; simpl.
  - unfold storeItems, after, ret. simpl. by rewrite Hd.
  - unfold storeItems, after, ret. simpl. by rewrite Hd.
  - by rewrite (savedNow_eq w d).
  - by rewrite (savedLater_eq w d).
Qed.

Lemma perform_items m w d :
  lastData w = Some d →
  storeItems (after (perform m w)) = planned (plan m (clock w) (items d)) (items d).
Proof. intros Hd. rewrite (perform_plan m w d Hd). by apply carryOut_items. Qed.

(** A property of the items that every plan keeps is kept by every
    sequence of calls. *)
Lemma performAll_invariant (P : list ChecklistItem → Prop) :
  (∀ m now l, P l → P (planned (plan m now l) l)) →
  ∀ ms w, P (storeItems w) → P (storeItems (after (performAll ms w))).
Proof.
  intros Hplan ms. induction ms as [|m ms IH]; intros w HP; [done|].
  change (after (performAll (m :: ms) w))
    with (after (performAll ms (after (perform m w)))).
  apply IH. destruct (lastData w) as [d|] eqn:Hd.
  - rewrite (perform_items m w d Hd).
    unfold storeItems in HP. rewrite Hd in HP. by apply Hplan.
  - by rewrite (perform_unloaded m w Hd).
Qed.

(** ** Order density *)

Lemma positional_lookup l :
  positional l ↔ ∀ i item, l !! i = Some item → order item = Some (Z.of_nat i).
Proof.
  unfold positional. split.
  - intros H i item Hi.
    assert (map order l !! i = Some (order item)) as Ho
      by (by rewrite list_lookup_fmap, Hi).
    rewrite H, list_lookup_fmap in Ho.
    apply lookup_lt_Some in Hi. rewrite lookup_seq_lt in Ho by done.
    by simplify_eq/=.
  - intros H. apply list_eq. intros i. rewrite !list_lookup_fmap.
    destruct (l !! i) as [item|] eqn:Hi; simpl.
    + rewrite lookup_seq_lt by (by eapply lookup_lt_Some). simpl.
      by rewrite (H i item Hi).
    + apply lookup_ge_None in Hi. by rewrite lookup_seq_ge.
Qed.

Lemma positional_dense l : positional l → denseOrders l.
Proof. unfold positional, denseOrders. by intros ->. Qed.

Lemma positional_renumber l : positional (renumber l).
Proof.
  apply positional_lookup. intros i item H. unfold renumber in H.
  rewrite list_lookup_imap in H. destruct (l !! i); by simplify_eq/=.
Qed.

Lemma updFirst_lookup p f l i y :
  updFirst p f l !! i = Some y → ∃ x, l !! i = Some x ∧ (y = x ∨ y = f x).
Proof.
  revert i. induction l as [|x l IH]; intros i; simpl; [done|].
  destruct (p x).
  - destruct i; simpl; intros; simplify_eq/=; eauto.
  - destruct i; simpl; intros; simplify_eq/=; eauto.
Qed.

Lemma positional_updFirst p f l :
  (∀ t, order (f t) = order t) → positional l → positional (updFirst p f l).
Proof.
  rewrite !positional_lookup. intros Hf H i y Hy.
  destruct (updFirst_lookup _ _ _ _ _ Hy) as (x & Hx & [->| ->]).
  - by apply H.
  - rewrite Hf. by apply H.
Qed.

Lemma positional_map f l :
  (∀ t, order (f t) = order t) → positional l → positional (map f l).
Proof.
  rewrite !positional_lookup. intros Hf H i y Hy.
  rewrite list_lookup_fmap in Hy. destruct (l !! i) as [x|] eqn:Hx; simplify_eq/=.
  rewrite Hf. by apply H.
Qed.

Lemma positional_snoc l x :
  order x = Some (Js.len l) → positional l → positional (l ++ [x]).
Proof.
  rewrite !positional_lookup. intros Hx H i y Hy.
  apply lookup_snoc_Some in Hy as [[_ Hy]|[-> ->]]; [by apply H|done].
Qed.

Lemma positional_swapWith i j task l :
  0 ≤ i → 0 ≤ j → positional l → positional (swapWith i j task l).
Proof.
  rewrite !positional_lookup. intros Hi Hj H k y.
  unfold swapWith, Js.updAt, Js.setAt.
  destruct (decide (Z.to_nat j = k)) as [<-|Hjk].
  { rewrite list_lookup_alter_eq. intros Hy.
    apply fmap_Some in Hy as (z & _ & ->). simpl. by rewrite Z2Nat.id. }
  rewrite list_lookup_alter_ne by done.
  destruct (decide (Z.to_nat i = k)) as [<-|Hik].
  { rewrite list_lookup_alter_eq. intros Hy.
    apply fmap_Some in Hy as (z & _ & ->). simpl. by rewrite Z2Nat.id. }
  rewrite list_lookup_alter_ne, list_lookup_insert_ne by done.
  destruct (Js.at_ l j); [rewrite list_lookup_insert_ne by done|]; apply H.
Qed.

Lemma at_nonneg {A} (l : list A) k x : Js.at_ l k = Some x → 0 ≤ k < Js.len l.
Proof.
  unfold Js.at_, Js.len. destruct (k <? 0) eqn:E; [done|].
  apply Z.ltb_ge in E. intros H%lookup_lt_Some. lia.
Qed.

Lemma plan_positional m now l :
  positional l → positional (planned (plan m now l) l).
Proof.
  intros H. destruct m as [i| |rnd t|i|i t|i|i|i p]; simpl.
  - destruct (_ =? -1); simpl; [done|]. by apply positional_updFirst.
  - by apply positional_map.
  - by apply positional_snoc.
  - destruct (_ =? -1); simpl; [done|]. apply positional_renumber.
  - destruct (_ =? -1); simpl; [done|]. by apply positional_updFirst.
  - destruct (Js.at_ l _) as [task|] eqn:E; simpl; [|done].
    apply at_nonneg in E.
    destruct (_ =? 0) eqn:E0; simpl; [apply positional_renumber|].
    apply Z.eqb_neq in E0. apply positional_swapWith; [lia|lia|done].
  - destruct (Js.at_ l _) as [task|] eqn:E; simpl; [|done].
    apply at_nonneg in E.
    destruct (_ =? Js.len l - 1); simpl; [apply positional_renumber|].
    apply positional_swapWith; [lia|lia|done].
  - destruct (Js.at_ l _) as [task|] eqn:E; simpl; [|done].
    destruct (_ =? _); simpl; [done|]. apply positional_renumber.
Qed.

(** C3, as amended. When every task's [order] is its position in the
    array (the [order] fields read 0, 1, …, N-1 in array order), this
    stays so after any finite sequence of add, delete, moveUp, moveDown
    and moveToPosition calls (and of toggle, edit and reset calls), and
    so the multiset of [order] fields over the N' remaining tasks is
    exactly {0, …, N'-1}. *)
Theorem order_density_positional (ms : list Mutation) (w : World) :
  positional (storeItems w) →
  positional (storeItems (after (performAll ms w))) ∧
  denseOrders (storeItems (after (performAll ms w))).
Proof.
  intros H.
  assert (positional (storeItems (after (performAll ms w)))) as Hp.
  { apply (performAll_invariant positional); [|done].
    intros m now l. apply plan_positional. }
  split; [done|by apply positional_dense].
Qed.

Lemma order_density_positional_witness :
  positional (storeItems (after (performAll
    [Add "r1" "d"; MoveUp "a"; Delete "b"; MoveDown "c"; MoveToPosition "a" 0;
     MoveUp "c"] (Example.world Example.abc)))) ∧
  denseOrders (storeItems (after (performAll
    [Add "r1" "d"; MoveUp "a"; Delete "b"; MoveDown "c"; MoveToPosition "a" 0;
     MoveUp "c"] (Example.world Example.abc)))).
Proof.
  apply (order_density_positional _ (Example.world Example.abc)).
  reflexivity.
Defined.

(** C3 as stated fails: orders that are dense as a multiset but do not
    follow the array are broken by a swap, which renumbers only the two
    positions it touches. Moving "z" up in [x(1), y(0), z(2)] leaves
    the orders [1, 1, 2]. *)
Lemma order_density_multiset_counterexample :
  denseOrders (storeItems (Example.world Example.shuffled)) ∧
  map order (storeItems (after (performAll [MoveUp "z"]
    (Example.world Example.shuffled)))) = [Some 1; Some 1; Some 2] ∧
  ¬ denseOrders (storeItems (after (performAll [MoveUp "z"]
    (Example.world Example.shuffled)))).
Proof.
  split_and!.
  - unfold denseOrders. simpl. apply perm_swap.
  - reflexivity.
  - unfold denseOrders.
    change (map order _) with [Some 1; Some 1; Some 2].
    change (map _ (seq 0 _)) with [Some 0; Some 1; Some 2].
    intros H.
    assert (Some 0 ∈ [Some 1; Some 1; Some 2]) as Hin
      by (rewrite H; apply list_elem_of_here).
    rewrite !elem_of_cons, elem_of_nil in Hin.
    by destruct Hin as [?|[?|[?|?]]].
Qed.

(** ** Moving tasks *)

Lemma carryOut_result p w d :
  lastData w = Some d →
  result (carryOut p w) = match p with Refuse => false | _ => true end.
Proof.
  intros Hd. destruct p; simpl; [done|done| |].
  - by rewrite (savedNow_eq w d).
  - by rewrite (savedLater_eq w d).
Qed.

Lemma moveTaskUp_plan i w d :
  lastData w = Some d →
  moveTaskUp i w = carryOut (plan (MoveUp i) (clock w) (items d)) w.
Proof. apply (perform_plan (MoveUp i)). Qed.

Lemma moveTaskDown_plan i w d :
  lastData w = Some d →
  moveTaskDown i w = carryOut (plan (MoveDown i) (clock w) (items d)) w.
Proof. apply (perform_plan (MoveDown i)). Qed.

Lemma moveTaskToPosition_plan i p w d :
  lastData w = Some d →
  moveTaskToPosition i p w =
    carryOut (plan (MoveToPosition i p) (clock w) (items d)) w.
Proof. apply (perform_plan (MoveToPosition i p)). Qed.

Lemma plan_absent_up i now l :
  Js.findIndex (hasId i) l = -1 → plan (MoveUp i) now l = Refuse.
Proof. intros H. simpl. by rewrite H. Qed.

Lemma plan_absent_down i now l :
  Js.findIndex (hasId i) l = -1 → plan (MoveDown i) now l = Refuse.
Proof. intros H. simpl. by rewrite H. Qed.

Lemma setOrder_same n t : order t = Some n → setOrder n t = t.
Proof. destruct t; simpl; by intros ->. Qed.

Lemma missing_Some s : s ≠ "" → missing (Some s) = false.
Proof. by destruct s. Qed.

(** C4. On [A,B,C], moving A up wraps it to the end and moving C down
    wraps it to the front, the tasks renumbered by position; on a list of
    one task both moves succeed and leave that task, renumbered 0, so the
    list is equal to itself when it was numbered 0; for an id that is in
    no task both methods return false without touching anything, which
    the routes answer with 404. *)
Theorem move_wraparound (w : World) (t : Z) (s : option string)
    (A B C : ChecklistItem) (gone : string) :
  id A ≠ id C → id B ≠ id C →
  Js.findIndex (hasId gone) (storeItems w) = -1 → gone ≠ "" →
  let w3 := setLastData (Some (mkData [A; B; C] t s)) w in
  let w1 := setLastData (Some (mkData [A] t s)) w in
  (result (moveTaskUp (id A) w3) = true ∧
   storeItems (after (moveTaskUp (id A) w3))
     = [setOrder 0 B; setOrder 1 C; setOrder 2 A]) ∧
  (result (moveTaskDown (id C) w3) = true ∧
   storeItems (after (moveTaskDown (id C) w3))
     = [setOrder 0 C; setOrder 1 A; setOrder 2 B]) ∧
  (result (moveTaskUp (id A) w1) = true ∧
   result (moveTaskDown (id A) w1) = true ∧
   storeItems (after (moveTaskUp (id A) w1)) = [setOrder 0 A] ∧
   storeItems (after (moveTaskDown (id A) w1)) = [setOrder 0 A] ∧
   (order A = Some 0 →
    storeItems (after (moveTaskUp (id A) w1)) = storeItems w1 ∧
    storeItems (after (moveTaskDown (id A) w1)) = storeItems w1)) ∧
  (moveTaskUp gone w = (false, w, []) ∧
   moveTaskDown gone w = (false, w, [])) ∧
  (∃ msg, effects (handle (Http Example.bearer (PostMoveUp (Some gone))) w)
            = [Respond 404 (BError msg)]) ∧
  (∃ msg, effects (handle (Http Example.bearer (PostMoveDown (Some gone))) w)
            = [Respond 404 (BError msg)]).
Proof.
  intros HAC HBC Hgone Hne w3 w1.
  assert (Hup3 : plan (MoveUp (id A)) (clock w3) [A; B; C]
                 = SaveLater [setOrder 0 B; setOrder 1 C; setOrder 2 A]).
  { simpl. rewrite findIndex_cons, hasId_refl. reflexivity. }
  assert (Hdown3 : plan (MoveDown (id C)) (clock w3) [A; B; C]
                   = SaveLater [setOrder 0 C; setOrder 1 A; setOrder 2 B]).
  { simpl. rewrite !findIndex_cons, (hasId_ne _ A), (hasId_ne _ B), hasId_refl
      by done. reflexivity. }
  assert (Hup1 : plan (MoveUp (id A)) (clock w1) [A] = SaveLater [setOrder 0 A]).
  { simpl. rewrite findIndex_cons, hasId_refl. reflexivity. }
  assert (Hdown1 : plan (MoveDown (id A)) (clock w1) [A] = SaveLater [setOrder 0 A]).
  { simpl. rewrite findIndex_cons, hasId_refl. reflexivity. }
  assert (Habs : ∀ d, lastData w = Some d →
                      Js.findIndex (hasId gone) (items d) = -1).
  { intros d Hd. unfold storeItems in Hgone. by rewrite Hd in Hgone. }
  assert (Hrefuse : moveTaskUp gone w = (false, w, []) ∧
                    moveTaskDown gone w = (false, w, [])).
  { destruct (lastData w) as [d|] eqn:Hd.
    - rewrite (moveTaskUp_plan _ _ d Hd), (moveTaskDown_plan _ _ d Hd).
      by rewrite plan_absent_up, plan_absent_down by by apply Habs.
    - split; [apply (perform_unloaded (MoveUp gone))
             |apply (perform_unloaded (MoveDown gone))]; done. }
  split_and!.
  - rewrite (moveTaskUp_plan _ w3 _ eq_refl). simpl items. rewrite Hup3. cbn [carryOut].
    by rewrite (savedLater_eq w3 _ _ eq_refl).
  - rewrite (moveTaskUp_plan _ w3 _ eq_refl). simpl items. rewrite Hup3. cbn [carryOut].
    by rewrite (savedLater_eq w3 _ _ eq_refl).
  - rewrite (moveTaskDown_plan _ w3 _ eq_refl). simpl items. rewrite Hdown3. cbn [carryOut].
    by rewrite (savedLater_eq w3 _ _ eq_refl).
  - rewrite (moveTaskDown_plan _ w3 _ eq_refl). simpl items. rewrite Hdown3. cbn [carryOut].
    by rewrite (savedLater_eq w3 _ _ eq_refl).
  - rewrite (moveTaskUp_plan _ w1 _ eq_refl). simpl items. rewrite Hup1. cbn [carryOut].
    by rewrite (savedLater_eq w1 _ _ eq_refl).
  - rewrite (moveTaskDown_plan _ w1 _ eq_refl). simpl items. rewrite Hdown1. cbn [carryOut].
    by rewrite (savedLater_eq w1 _ _ eq_refl).
  - rewrite (moveTaskUp_plan _ w1 _ eq_refl). simpl items. rewrite Hup1. cbn [carryOut].
    by rewrite (savedLater_eq w1 _ _ eq_refl).
  - rewrite (moveTaskDown_plan _ w1 _ eq_refl). simpl items. rewrite Hdown1. cbn [carryOut].
    by rewrite (savedLater_eq w1 _ _ eq_refl).
  - intros HA.
    rewrite (moveTaskUp_plan _ w1 _ eq_refl), (moveTaskDown_plan _ w1 _ eq_refl).
    simpl items. rewrite Hup1, Hdown1. cbn [carryOut].
    rewrite !(savedLater_eq w1 _ _ eq_refl). simpl.
    by rewrite (setOrder_same 0 A HA).
  - apply Hrefuse.
  - apply Hrefuse.
  - destruct Hrefuse as [Hr _].
    change (handle (Http Example.bearer (PostMoveUp (Some gone))) w)
      with (postMoveUp (Some gone) w).
    unfold postMoveUp. rewrite (missing_Some gone Hne).
    destruct (lastData w); [|by eexists].
    unfold bind. simpl. rewrite Hr. simpl. by eexists.
  - destruct Hrefuse as [_ Hr].
    change (handle (Http Example.bearer (PostMoveDown (Some gone))) w)
      with (postMoveDown (Some gone) w).
    unfold postMoveDown. rewrite (missing_Some gone Hne).
    destruct (lastData w); [|by eexists].
    unfold bind. simpl. rewrite Hr. simpl. by eexists.
Qed.

Lemma move_wraparound_witness :
  storeItems (after (moveTaskUp "a" (Example.world Example.abc)))
    = [Example.task "b" 0; Example.task "c" 1; Example.task "a" 2] ∧
  storeItems (after (moveTaskDown "c" (Example.world Example.abc)))
    = [Example.task "c" 0; Example.task "a" 1; Example.task "b" 2] ∧
  moveTaskUp "zz" (Example.world Example.abc)
    = (false, Example.world Example.abc, []).
Proof.
  pose proof (move_wraparound (Example.world Example.abc) 100 None
    (Example.task "a" 0) (Example.task "b" 1) (Example.task "c" 2) "zz")
    as H.
  destruct H as ((_ & Hup) & (_ & Hdown) & _ & (Hgone & _) & _).
  - discriminate.
  - discriminate.
  - reflexivity.
  - discriminate.
  - split_and!; [exact Hup|exact Hdown|exact Hgone].
Defined.

Lemma spliceIn_at {A} (c : Z) (x : A) (l : list A) :
  0 ≤ c ≤ Js.len l → Js.at_ (Js.spliceIn c x l) c = Some x.
Proof.
  unfold Js.len. intros Hc. rewrite <- (Z2Nat.id c) at 2 by lia.
  rewrite at_of_nat. unfold Js.spliceIn.
  apply list_lookup_middle. rewrite length_take_le; lia.
Qed.

Lemma renumber_at l c x :
  Js.at_ l c = Some x → Js.at_ (renumber l) c = Some (setOrder c x).
Proof.
  intros H. pose proof (at_nonneg _ _ _ H) as Hc.
  unfold Js.at_ in *. destruct (c <? 0); [done|].
  unfold renumber. rewrite list_lookup_imap, H. simpl.
  by rewrite Z2Nat.id by lia.
Qed.

Lemma len_spliceOut {A} (k : Z) (l : list A) :
  0 ≤ k < Js.len l → Js.len (Js.spliceOut k l) = Js.len l - 1.
Proof.
  unfold Js.len, Js.spliceOut. intros Hk.
  assert (is_Some (l !! Z.to_nat k)) as Hs by (apply lookup_lt_is_Some; lia).
  apply (length_delete l) in Hs. lia.
Qed.

(** C5. For a task that is in the store, [moveTaskToPosition] depends
    on the target only through its clamp into [0, N-1] and always
    reports success; when the clamped target is the task's index nothing
    at all changes (no item, no timestamp, nothing written or sent), so
    repeating the call changes nothing either; otherwise the task ends up
    at the clamped index. *)
Theorem moveToPosition_clamps_noop (w : World) (d : ChecklistData)
    (taskId : string) (target : Z) :
  lastData w = Some d →
  Js.findIndex (hasId taskId) (items d) ≠ -1 →
  let k := Js.findIndex (hasId taskId) (items d) in
  let c := Z.max 0 (Z.min target (Js.len (items d) - 1)) in
  0 ≤ c ≤ Js.len (items d) - 1 ∧
  moveTaskToPosition taskId target w = moveTaskToPosition taskId c w ∧
  result (moveTaskToPosition taskId target w) = true ∧
  (c = k → moveTaskToPosition taskId target w = (true, w, [])) ∧
  (c = k →
   (moveTaskToPosition taskId target ;;; moveTaskToPosition taskId target) w
     = (true, w, [])) ∧
  (c ≠ k →
   ∃ task, Js.at_ (items d) k = Some task ∧
     Js.at_ (storeItems (after (moveTaskToPosition taskId target w))) c
       = Some (setOrder c task)).
Proof.
  intros Hd Hk k c.
  destruct (findIndex_range (hasId taskId) (items d)) as [?|Hrange]; [done|].
  fold k in Hrange.
  assert (Hc : 0 ≤ c ≤ Js.len (items d) - 1) by (unfold c; lia).
  destruct (at_findIndex _ _ Hk) as (task & Hat & _). fold k in Hat.
  assert (Hnoop : c = k → moveTaskToPosition taskId target w = (true, w, [])).
  { intros Heq. rewrite (moveTaskToPosition_plan _ _ _ d Hd). simpl.
    fold k c. rewrite Hat, Heq, Z.eqb_refl. reflexivity. }
  split_and!.
  - lia.
  - lia.
  - rewrite !(moveTaskToPosition_plan _ _ _ d Hd). simpl. fold k c.
    by replace (Z.max 0 (Z.min c (Js.len (items d) - 1))) with c by lia.
  - rewrite (moveTaskToPosition_plan _ _ _ d Hd), (carryOut_result _ _ d Hd).
    simpl. fold k c. rewrite Hat. by destruct (k =? c).
  - done.
  - intros Heq. rewrite bind_unfold, (Hnoop Heq). unfold after, result, effects.
    simpl. by rewrite (Hnoop Heq).
  - intros Hne. exists task. split; [done|].
    rewrite (moveTaskToPosition_plan _ _ _ d Hd), (carryOut_items _ _ d Hd).
    simpl. fold k c. rewrite Hat.
    destruct (k =? c) eqn:E; [apply Z.eqb_eq in E; lia|]. simpl.
    apply renumber_at, spliceIn_at. rewrite len_spliceOut by lia. lia.
Qed.

Lemma moveToPosition_clamps_noop_witness :
  moveTaskToPosition "b" 1 (Example.world Example.abc)
    = (true, Example.world Example.abc, []) ∧
  moveTaskToPosition "c" 99 (Example.world Example.abc)
    = (true, Example.world Example.abc, []).
Proof.
  split.
  - apply (moveToPosition_clamps_noop (Example.world Example.abc)
             (mkData Example.abc 100 None) "b" 1); [reflexivity|discriminate|].
    reflexivity.
  - apply (moveToPosition_clamps_noop (Example.world Example.abc)
             (mkData Example.abc 100 None) "c" 99); [reflexivity|discriminate|].
    reflexivity.
Defined.

(** The two end-to-end scenarios of the design notes: moving the third
    of three tasks to position 0, and toggling the only task. *)
Example scenario_move_to_front :
  storeItems (after (moveTaskToPosition "c" 0 (Example.world Example.abc)))
    = [Example.task "c" 0; Example.task "a" 1; Example.task "b" 2].
Proof. reflexivity. Qed.

Example scenario_toggle :
  effects (toggleTaskById "1"
    (Example.world [mkItem "1" "A" false None None (Some 0)]))
    = [WriteFile (mkData [mkItem "1" "A" true (Some true) None (Some 0)] 5 None);
       Broadcast [1%nat]
         (TasksUpdated [mkItem "1" "A" true (Some true) None (Some 0)] None)].
Proof. reflexivity. Qed.

(** ** Selection continuity in the controller *)

(** C2 as stated fails: with two tasks, the first selected, and a third
    task added, the selection stays on the first task, which is found
    again by its id; it does not move to the added task at index 2. *)
Lemma selection_new_item_counterexample :
  Controller.selectedIndex
    (Controller.maintainSelection
       [Example.seen "a" 0; Example.seen "b" 1]
       (Controller.mkManager
          [Example.seen "a" 0; Example.seen "b" 1; Example.seen "c" 2] 0))
    = 0 ∧
  Js.findIndex (λ t, String.eqb (Controller.id t) "c")
    [Example.seen "a" 0; Example.seen "b" 1; Example.seen "c" 2] = 2 ∧
  Controller.selectedIndex
    (Controller.maintainSelection
       [Example.seen "a" 0; Example.seen "b" 1]
       (Controller.mkManager
          [Example.seen "a" 0; Example.seen "b" 1; Example.seen "c" 2] 0))
    ≠ Js.findIndex (λ t, String.eqb (Controller.id t) "c")
        [Example.seen "a" 0; Example.seen "b" 1; Example.seen "c" 2].
Proof. split_and!; [reflexivity|reflexivity|discriminate]. Qed.

(** The same through [updateTasks], which sorts what it receives. *)
Lemma selection_new_item_update :
  Controller.selectedIndex
    (Controller.updateTasks
       [Example.seen "c" 2; Example.seen "a" 0; Example.seen "b" 1]
       (Controller.mkManager [Example.seen "a" 0; Example.seen "b" 1] 0))
    = 0.
Proof. reflexivity. Qed.

(** The added task is selected when the selected task is gone. *)
Lemma selection_moves_when_selected_gone :
  Controller.selectedIndex
    (Controller.maintainSelection
       [Example.seen "a" 0; Example.seen "b" 1]
       (Controller.mkManager
          [Example.seen "b" 0; Example.seen "c" 1; Example.seen "d" 2] 0))
    = 1.
Proof. vm_compute. reflexivity. Qed.

(** C2, as amended. With two tasks, the first selected, and the same two
    tasks followed by one added task, the selected index is 0: the task
    that was selected is found again by its id and stays selected,
    whatever the three tasks are. *)
Theorem selection_keeps_selected_task (a b c : Controller.Task) :
  Controller.selectedIndex
    (Controller.maintainSelection [a; b] (Controller.mkManager [a; b; c] 0))
    = 0 ∧
  Js.at_ [a; b; c] 0 = Some a.
Proof.
  split; [|reflexivity].
  unfold Controller.maintainSelection. simpl.
  rewrite findIndex_cons, String.eqb_refl. reflexivity.
Qed.

(** ** Reconnecting in the overlay's data source *)

Ltac unfold_agent :=
  cbv [Agent.step Agent.start Agent.onopen Agent.onclose Agent.cleanup
       Agent.connectWebSocket Agent.startPolling Agent.stopPolling
       Agent.scheduleReconnect Agent.forceReload Agent.pollOnce
       Agent.seqR Agent.upd Agent.act Agent.skip].

Lemma delays_app l1 l2 : Agent.delays (l1 ++ l2) = Agent.delays l1 ++ Agent.delays l2.
Proof. unfold Agent.delays. apply omap_app. Qed.

Lemma connects_app l1 l2 :
  Agent.connects (l1 ++ l2) = (Agent.connects l1 + Agent.connects l2)%nat.
Proof. unfold Agent.connects. by rewrite List.filter_app, length_app. Qed.

Lemma run_cons_actions e es s :
  (Agent.run (e :: es) s).2
    = (Agent.step e s).2 ++ (Agent.run es (Agent.step e s).1).2.
Proof. reflexivity. Qed.

Lemma reconnectDelay_bound n : Agent.reconnectDelay n ≤ 30000.
Proof. unfold Agent.reconnectDelay. lia. Qed.

Lemma step_delays e s :
  Forall (λ d, d ≤ 30000) (Agent.delays (Agent.step e s).2).
Proof.
  destruct e; unfold_agent; repeat case_match; simpl;
    repeat constructor; apply reconnectDelay_bound.
Qed.

Lemma run_delays es s :
  Forall (λ d, d ≤ 30000) (Agent.delays (Agent.run es s).2).
Proof.
  revert s. induction es as [|e es IH]; intros s; simpl; [constructor|].
  unfold Agent.seqR. simpl. rewrite delays_app. apply Forall_app. split.
  - apply step_delays.
  - apply IH.
Qed.

(** Without a socket and without a pending reconnect timeout, nothing
    but a new [start] opens a socket. *)
Lemma step_quiet e s :
  Agent.liveSockets s = 0%nat → Agent.pendingReconnects s = 0%nat →
  e ≠ Agent.Start →
  Agent.liveSockets (Agent.step e s).1 = 0%nat ∧
  Agent.pendingReconnects (Agent.step e s).1 = 0%nat ∧
  Agent.connects (Agent.step e s).2 = 0%nat ∧
  Agent.delays (Agent.step e s).2 = [].
Proof.
  intros Hl Hp He. destruct s; simpl in *; subst.
  destruct e; try done; unfold_agent; simpl; repeat case_match; simpl; done.
Qed.

Lemma run_quiet es s :
  Agent.liveSockets s = 0%nat → Agent.pendingReconnects s = 0%nat →
  sameSession es = true →
  Agent.connects (Agent.run es s).2 = 0%nat ∧
  Agent.delays (Agent.run es s).2 = [].
Proof.
  revert s. induction es as [|e es IH]; intros s Hl Hp Hs; [done|].
  simpl in Hs. apply andb_true_iff in Hs as [He Hs].
  assert (e ≠ Agent.Start) as Hne by (by intros ->).
  destruct (step_quiet e s Hl Hp Hne) as (Hl' & Hp' & Hc & Hd).
  destruct (IH (Agent.step e s).1 Hl' Hp' Hs) as [Hc' Hd'].
  simpl. unfold Agent.seqR. simpl.
  rewrite connects_app, delays_app, Hc, Hd, Hc', Hd'. done.
Qed.

(** C9. Every reconnect is scheduled after
    min(1000 * 2^attempts, 30000) milliseconds and counts one more
    attempt; no delay observed in any run exceeds 30000; after [start],
    failure upon failure gives the delays 1s, 2s, 4s, 8s, 16s and then no
    sixth reconnect; and once a socket closes with the attempts at the
    maximum or above, polling is on and, for the rest of the session,
    no socket is opened and no reconnect is scheduled. *)
Theorem reconnect_backoff_bounded (s : Agent.State) (es : list Agent.Event) :
  Agent.maxReconnectAttempts s ≤ Agent.reconnectAttempts s →
  Agent.liveSockets s = 1%nat →
  Agent.pendingReconnects s = 0%nat →
  sameSession es = true →
  (∀ s', (Agent.scheduleReconnect s').2
           = [Agent.ArmReconnect
                (Z.min (1000 * 2 ^ Agent.reconnectAttempts s') 30000)] ∧
         Agent.reconnectAttempts (Agent.scheduleReconnect s').1
           = Agent.reconnectAttempts s' + 1) ∧
  (∀ es' s', Forall (λ d, d ≤ 30000) (Agent.delays (Agent.run es' s').2)) ∧
  (Agent.delays (Agent.run (Example.failing 5) (Agent.fresh false)).2
     = [1000; 2000; 4000; 8000; 16000] ∧
   Agent.connects (Agent.run (Example.failing 5) (Agent.fresh false)).2 = 6%nat ∧
   Agent.pollInterval (Agent.run (Example.failing 5) (Agent.fresh false)).1 = true ∧
   Agent.pendingReconnects (Agent.run (Example.failing 5) (Agent.fresh false)).1
     = 0%nat) ∧
  (Agent.pollInterval (Agent.step Agent.Close s).1 = true ∧
   Agent.connects (Agent.run (Agent.Close :: es) s).2 = 0%nat ∧
   Agent.delays (Agent.run (Agent.Close :: es) s).2 = []).
Proof.
  intros Hmax Hlive Hpend Hs. split_and!.
  - intros s'. split; reflexivity.
  - apply run_delays.
  - reflexivity.
  - reflexivity.
  - reflexivity.
  - reflexivity.
  - destruct s; simpl in *; subst. unfold_agent. simpl.
    destruct (reconnectAttempts <? maxReconnectAttempts) eqn:E;
      [apply Z.ltb_lt in E; lia|].
    by destruct pollInterval.
  - assert (Hstep : Agent.liveSockets (Agent.step Agent.Close s).1 = 0%nat ∧
                    Agent.pendingReconnects (Agent.step Agent.Close s).1 = 0%nat ∧
                    Agent.connects (Agent.step Agent.Close s).2 = 0%nat).
    { destruct s; simpl in *; subst. unfold_agent. simpl.
      destruct (reconnectAttempts <? maxReconnectAttempts) eqn:E;
        [apply Z.ltb_lt in E; lia|].
      by destruct pollInterval. }
    destruct Hstep as (Hl & Hp & Hc).
    destruct (run_quiet es _ Hl Hp Hs) as [Hc' _].
    by rewrite run_cons_actions, connects_app, Hc, Hc'.
  - assert (Hstep : Agent.liveSockets (Agent.step Agent.Close s).1 = 0%nat ∧
                    Agent.pendingReconnects (Agent.step Agent.Close s).1 = 0%nat ∧
                    Agent.delays (Agent.step Agent.Close s).2 = []).
    { destruct s; simpl in *; subst. unfold_agent. simpl.
      destruct (reconnectAttempts <? maxReconnectAttempts) eqn:E;
        [apply Z.ltb_lt in E; lia|].
      by destruct pollInterval. }
    destruct Hstep as (Hl & Hp & Hd).
    destruct (run_quiet es _ Hl Hp Hs) as [_ Hd'].
    by rewrite run_cons_actions, delays_app, Hd, Hd'.
Qed.

Lemma reconnect_backoff_bounded_witness :
  Agent.pollInterval
    (Agent.step Agent.Close
       (Agent.run (removelast (Example.failing 5)) (Agent.fresh false)).1).1
    = true ∧
  Agent.connects
    (Agent.run [Agent.Close; Agent.PollTick; Agent.ReconnectTimeout;
                Agent.ForceReload; Agent.Open; Agent.Close; Agent.PollTick]
       (Agent.run (removelast (Example.failing 5)) (Agent.fresh false)).1).2
    = 0%nat.
Proof.
  pose proof (reconnect_backoff_bounded
    (Agent.run (removelast (Example.failing 5)) (Agent.fresh false)).1
    [Agent.PollTick; Agent.ReconnectTimeout; Agent.ForceReload; Agent.Open;
     Agent.Close; Agent.PollTick]) as H.
  destruct H as (_ & _ & _ & Hpoll & Hconn & _).
  - vm_compute. discriminate.
  - reflexivity.
  - reflexivity.
  - reflexivity.
  - split; [exact Hpoll|exact Hconn].
Defined.

(** ** The routes *)

Lemma authenticateAdmin_cases auth next w :
  (∃ st body, authenticateAdmin auth next w = (tt, w, [Respond st body])) ∨
  authenticateAdmin auth next w = next w.
Proof.
  unfold authenticateAdmin. destruct (truthy auth); [|left; by eexists _, _].
  destruct (negb _); [left; by eexists _, _|].
  destruct (negb _); [left; by eexists _, _|by right].
Qed.

Lemma answer_by_result (m : M bool) sa ba sb bb w :
  ∃ st body,
    after ((let! success := m in
            if negb success then emit (Respond sa ba) else emit (Respond sb bb)) w)
      = after (m w) ∧
    effects ((let! success := m in
              if negb success then emit (Respond sa ba) else emit (Respond sb bb)) w)
      = effects (m w) ++ [Respond st body].
Proof.
  unfold bind, after, effects. destruct (m w) as [[[] w'] es]; by eexists _, _.
Qed.

Ltac refused := left; eexists _, _; reflexivity.
Ltac performed m := right; left; exists m; eexists _, _; split; reflexivity.
Ltac performed_move m := right; left; exists m; apply answer_by_result.
Ltac admin :=
  match goal with
  | |- context [authenticateAdmin ?a ?n ?w] =>
      destruct (authenticateAdmin_cases a n w) as [Hrej|Hok];
      [by left|rewrite Hok; clear Hok]
  end.

(** A request is turned away with an answer and nothing else, or it
    runs one method of the store and answers, or it selects. *)
Lemma route_cases auth r w :
  (∃ st body, route auth r w = (tt, w, [Respond st body])) ∨
  (∃ m st body, after (route auth r w) = after (perform m w) ∧
     effects (route auth r w) = effects (perform m w) ++ [Respond st body]) ∨
  (∃ sel body, r = PostSelect sel ∧
     after (route auth r w) = after (selecting (truthy sel) w) ∧
     effects (route auth r w)
       = effects (selecting (truthy sel) w) ++ [Respond 200 body]).
Proof.
  destruct r as [| |i|c|rnd t|i|i t|i|i|i|i p|]; unfold route; try admin.
  - unfold getTasks, noData, emit. destruct (lastData w); refused.
  - unfold postToggleNext, noData, emit. destruct (lastData w); [|refused].
    destruct (Js.find _ _) as [t|]; [|refused]. performed (Toggle (id t)).
  - unfold postToggle, noData, emit. destruct (missing i); [refused|].
    destruct (lastData w); [|refused].
    destruct (Js.find _ _); [|refused]. performed (Toggle (default "" i)).
  - unfold postReset, noData, emit. destruct (negb c); [refused|].
    destruct (lastData w); [|refused]. performed Reset.
  - unfold postAdd, noData, emit. destruct (badText t); [refused|].
    destruct (lastData w); [|refused].
    performed (Add rnd (Js.trim (default "" t))).
  - unfold postDelete, noData, emit. destruct (missing i); [refused|].
    destruct (lastData w) as [d|] eqn:Hd; [|refused].
    destruct (Z.eq_dec (Js.findIndex (hasId (default "" i)) (items d)) (-1))
      as [E|E].
    + rewrite E. simpl. refused.
    + destruct (at_findIndex _ _ E) as (x & -> & _).
      apply Z.eqb_neq in E. rewrite E. performed (Delete (default "" i)).
  - unfold postEdit, noData, emit. destruct (missing i); [refused|].
    destruct (badText t); [refused|].
    destruct (lastData w); [|refused].
    destruct (Js.find _ _); [|refused].
    performed (Edit (default "" i) (Js.trim (default "" t))).
  - unfold postSelect, noData, emit. destruct (lastData w); [|refused].
    destruct (truthy i) eqn:Ei; [destruct (Js.find _ _); [|refused]|].
    all: right; right; eexists _, _; split; [reflexivity|];
      rewrite Ei; split; reflexivity.
  - unfold postMoveUp, noData, emit. destruct (missing i); [refused|].
    destruct (lastData w); [|refused]. performed_move (MoveUp (default "" i)).
  - unfold postMoveDown, noData, emit. destruct (missing i); [refused|].
    destruct (lastData w); [|refused]. performed_move (MoveDown (default "" i)).
  - unfold postMoveToPosition, noData, emit. destruct (missing i); [refused|].
    destruct p as [p|]; [|refused]. destruct (p <? 0); [refused|].
    destruct (lastData w); [|refused].
    performed_move (MoveToPosition (default "" i) p).
  - refused.
Qed.

(** What no method of the store touches. *)
Lemma perform_frame m w :
  broadcastInterval (after (perform m w)) = broadcastInterval w ∧
  selectedTaskId (after (perform m w)) = selectedTaskId w ∧
  clock (after (perform m w)) = clock w ∧
  fileWritable (after (perform m w)) = fileWritable w.
Proof.
  destruct (lastData w) as [d|] eqn:Hd.
  - rewrite (perform_plan m w d Hd).
    destruct (plan m (clock w) (items d)); simpl; [done|done| |].
    + by rewrite (savedNow_eq w d).
    + by rewrite (savedLater_eq w d).
  - by rewrite (perform_unloaded m w Hd).
Qed.

Lemma broadcasts_app l1 l2 : broadcasts (l1 ++ l2) = broadcasts l1 ++ broadcasts l2.
Proof. unfold broadcasts. apply omap_app. Qed.


Lemma broadcasts_closing l : broadcasts (map CloseSocket l) = [].
Proof. by induction l. Qed.

(** A method that sent something to the clients succeeded. *)
Lemma perform_broadcast_result m w :
  broadcasts (effects (perform m w)) ≠ [] → result (perform m w) = true.
Proof.
  destruct (lastData w) as [d|] eqn:Hd.
  - rewrite (perform_plan m w d Hd).
    destruct (plan m (clock w) (items d)); simpl; [done|done| |].
    + by rewrite (savedNow_eq w d).
    + by rewrite (savedLater_eq w d).
  - by rewrite (perform_unloaded m w Hd).
Qed.

Lemma handle_interval e w :
  broadcastInterval w = None → broadcastInterval (after (handle e w)) = None.
Proof.
  intros H. destruct e as [auth r|ws|ws|ws| | |]; simpl.
  - destruct (route_cases auth r w)
      as [(st & body & ->)|[(m & st & body & -> & _)|(sl & body & _ & -> & _)]].
    + done.
    + by rewrite (proj1 (perform_frame m w)).
    + open_world w. unfold selecting, broadcastSelectionUpdate, fanOut.
      unfold_monad. simpl. by destruct ld.
  - open_world w. unfold onConnection, sendToClient. unfold_monad. simpl.
    destruct ld; simpl; [|done]. by repeat case_match.
  - by open_world w.
  - by open_world w.
  - open_world w. unfold loadAndBroadcast, loadTasksFile. unfold_monad. simpl.
    by repeat (case_match; simpl).
  - open_world w. unfold saveTimeoutFires. unfold_monad. simpl.
    by repeat (case_match; simpl).
  - open_world w. unfold stop. unfold_monad. simpl.
    by repeat (case_match; simpl).
Qed.

Lemma run_interval es w :
  broadcastInterval w = None → broadcastInterval (after (run es w)) = None.
Proof.
  revert w. induction es as [|e es IH]; intros w H; [done|].
  change (after (run (e :: es) w)) with (after (run es (after (handle e w)))).
  by apply IH, handle_interval.
Qed.

Lemma construct_interval now f wr : broadcastInterval (construct now f wr) = None.
Proof.
  unfold construct, loadAndBroadcast, loadTasksFile. unfold_monad. simpl.
  by repeat (case_match; simpl).
Qed.

Lemma handle_timer_silent w : broadcasts (effects (handle SaveTimeout w)) = [].
Proof.
  open_world w. unfold saveTimeoutFires. unfold_monad. simpl.
  by repeat (case_match; simpl).
Qed.

(** C8. A broadcast is sent only while a request that mutates or
    selects, or a change of the tasks file, is handled, and for a
    request only when a method of the store succeeded or a selection was
    made; the one timeout the server sets, the debounced save, sends
    nothing; and no interval is ever started: [broadcastInterval] stays
    null from the constructor on. *)
Theorem broadcast_only_on_change (e : Event) (w : World) :
  broadcasts (effects (handle e w)) ≠ [] →
  changeEvent e = true ∧
  (∀ auth r, e = Http auth r →
     (∃ m, result (perform m w) = true ∧
           after (handle e w) = after (perform m w)) ∨
     (∃ sel, r = PostSelect sel)) ∧
  (∀ w', broadcasts (effects (handle SaveTimeout w')) = []) ∧
  (∀ now f wr es,
     broadcastInterval (after (run es (construct now f wr))) = None).
Proof.
  intros H. split_and!.
  - destruct e as [auth r|ws|ws|ws| | |]; [destruct r; try done| | | |done| |].
    + exfalso. apply H. simpl. unfold getTasks, noData, emit.
      by destruct (lastData w).
    + exfalso. apply H. open_world w. unfold onConnection, sendToClient.
      unfold_monad. simpl. destruct ld; simpl; [|done]. by repeat case_match.
    + exfalso. by apply H.
    + exfalso. by apply H.
    + exfalso. apply H, handle_timer_silent.
    + exfalso. apply H. open_world w. unfold stop. unfold_monad. simpl.
      destruct st; simpl; [destruct ld; simpl; [destruct fw|]|]; simpl;
        apply broadcasts_closing.
  - intros auth r ->. simpl in *.
    destruct (route_cases auth r w)
      as [(st & body & Heq)|[(m & st & body & Ha & He)|(sel & body & -> & _)]].
    + by rewrite Heq in H.
    + left. exists m. split; [|done]. apply perform_broadcast_result.
      rewrite He, broadcasts_app in H. simpl in H. by rewrite app_nil_r in H.
    + right. by eexists.
  - apply handle_timer_silent.
  - intros. apply run_interval, construct_interval.
Qed.

Lemma broadcast_only_on_change_witness :
  changeEvent (Http Example.bearer (PostToggle (Some "a"))) = true ∧
  broadcasts (effects (handle SaveTimeout
    (after (moveTaskUp "a" (Example.world Example.abc))))) = [].
Proof.
  pose proof (broadcast_only_on_change
    (Http Example.bearer (PostToggle (Some "a")))
    (Example.world Example.abc)) as H.
  destruct H as (Hc & _ & Ht & _).
  - vm_compute. discriminate.
  - split; [exact Hc|apply Ht].
Defined.

(** The earlier server does broadcast on its interval: the same state,
    unchanged, is sent again at every tick. *)
Lemma legacy_interval_broadcasts :
  broadcasts (effects (Legacy.handle Legacy.Interval
    (after (Legacy.startPeriodicBroadcast (Example.world Example.abc)))))
    = [([1%nat], Snapshot Example.abc 100 None)].
Proof. reflexivity. Qed.

(** ** The selected task *)

Lemma find_Some {A} (p : A → bool) l x :
  Js.find p l = Some x → x ∈ l ∧ p x = true.
Proof.
  induction l as [|y l IH]; simpl; [done|].
  destruct (p y) eqn:E.
  - intros [= ->]. split; [apply list_elem_of_here|done].
  - intros H. destruct (IH H). split; [by apply list_elem_of_further|done].
Qed.

Lemma truthy_Some s t : truthy s = Some t → s = Some t ∧ t ≠ "".
Proof. destruct s as [[|c s]|]; simpl; intros H; by simplify_eq. Qed.

Lemma postSelect_broadcasts w d chosen :
  lastData w = Some d →
  broadcasts (effects
    ((modify (setSelectedTaskId chosen) ;;;
      broadcastSelectionUpdate ;;;
      (λ w, emit (Respond 200 (BSelected (selectedTaskId w))) w)) w))
    = [(fanned w, Snapshot (items d) (ts d) (truthy chosen))].
Proof. intros Hd. open_world w. reflexivity. Qed.

(** X17. What the select route sends names a task of the store: the route
    refuses an id that no task has. *)
Lemma select_validates auth taskId w r p :
  (r, p) ∈ broadcasts (effects (handle (Http auth (PostSelect taskId)) w)) →
  selectionValid p.
Proof.
  simpl. destruct (authenticateAdmin_cases auth (postSelect taskId) w)
    as [(st & body & ->)| ->]; [by intros ?%elem_of_nil|].
  unfold postSelect, noData.
  destruct (lastData w) as [d|] eqn:Hd; [|by intros ?%elem_of_nil].
  destruct (truthy taskId) as [s|] eqn:Hs.
  - destruct (Js.find _ _) as [x|] eqn:Hx; [|by intros ?%elem_of_nil].
    rewrite (postSelect_broadcasts w d _ Hd).
    intros [= _ ->]%list_elem_of_singleton. intros s'. simpl.
    apply truthy_Some in Hs as [-> Hne]. simpl in Hx.
    apply find_Some in Hx as [Hin Hid]. apply String.eqb_eq in Hid.
    destruct s; [done|]. intros [= <-]. rewrite <- Hid.
    by apply list_elem_of_fmap_2.
  - rewrite (postSelect_broadcasts w d _ Hd).
    intros [= _ ->]%list_elem_of_singleton. by intros s'.
Qed.

(** No method of the store, [deleteTask] included, touches the
    selection. *)
Lemma delete_keeps_selection taskId w :
  selectedTaskId (after (deleteTask taskId w)) = selectedTaskId w.
Proof. apply (perform_frame (Delete taskId)). Qed.

(** C1 fails on the code. With "b" selected, deleting "b" leaves
    [selectedTaskId] at "b": the broadcast that follows the deletion
    carries the two remaining tasks and the id of the deleted one. *)
Theorem delete_leaves_selection_dangling :
  selectedTaskId (after (run
    [Http Example.bearer (PostSelect (Some "b"));
     Http Example.bearer (PostDelete (Some "b"))]
    (Example.world Example.abc))) = Some "b" ∧
  storeItems (after (run
    [Http Example.bearer (PostSelect (Some "b"));
     Http Example.bearer (PostDelete (Some "b"))]
    (Example.world Example.abc)))
    = [Example.task "a" 0; Example.task "c" 1] ∧
  last (broadcasts (effects (run
    [Http Example.bearer (PostSelect (Some "b"));
     Http Example.bearer (PostDelete (Some "b"))]
    (Example.world Example.abc))))
    = Some ([1%nat],
            TasksUpdated [Example.task "a" 0; Example.task "c" 1] (Some "b")) ∧
  ¬ selectionValid
      (TasksUpdated [Example.task "a" 0; Example.task "c" 1] (Some "b")).
Proof.
  split_and!; [reflexivity|reflexivity|reflexivity|].
  intros H. specialize (H "b" eq_refl). simpl in H.
  rewrite !elem_of_cons, elem_of_nil in H. by destruct H as [?|[?|?]].
Qed.

(** ** The two completion flags *)
















(** ** Saving: failures, at once, and debounced *)






















(** * Further properties of the code *)

(** ** The controller's task manager *)

Lemma maintainSelection_tasks prev m :
  Controller.tasks (Controller.maintainSelection prev m) = Controller.tasks m.
Proof.
  unfold Controller.maintainSelection.
  repeat (match goal with |- context [if ?b then _ else _] => destruct b end);
    reflexivity.
Qed.

Lemma insertByOrder_perm t l : Controller.insertByOrder t l ≡ₚ t :: l.
Proof.
  induction l as [|x l IH]; simpl; [done|].
  destruct (_ <=? _); [done|]. rewrite IH. apply perm_swap.
Qed.

Lemma sortByOrder_perm l : Controller.sortByOrder l ≡ₚ l.
Proof.
  induction l as [|x l IH]; simpl; [done|].
  by rewrite insertByOrder_perm, IH.
Qed.

Lemma insertByOrder_ascending t l :
  ascending l → ascending (Controller.insertByOrder t l).
Proof.
  unfold ascending. induction 1 as [|x l Hl IH Hx]; simpl.
  - by repeat constructor.
  - destruct (_ <=? _) eqn:E.
    + apply Z.leb_le in E. constructor; [by constructor|].
      constructor; [done|]. eapply Forall_impl; [exact Hx|].
      intros y Hy. simpl in *. lia.
    + apply Z.leb_gt in E. constructor; [done|].
      rewrite insertByOrder_perm. constructor; [lia|done].
Qed.

Lemma sortByOrder_ascending l : ascending (Controller.sortByOrder l).
Proof.
  induction l as [|x l IH]; simpl; [constructor|].
  by apply insertByOrder_ascending.
Qed.

Lemma sortByOrder_fixed l : ascending l → Controller.sortByOrder l = l.
Proof.
  unfold ascending. induction 1 as [|x l Hl IH Hx]; [done|].
  change (Controller.sortByOrder (x :: l))
    with (Controller.insertByOrder x (Controller.sortByOrder l)).
  rewrite IH. destruct Hx as [|y l' Hy _]; simpl; [done|].
  by apply Z.leb_le in Hy as ->.
Qed.

(** X1. [updateTasks] keeps every task it is given, each as often as it was
    given, and leaves them in ascending [order]. *)
Theorem updateTasks_sorts (newTasks : list Controller.Task)
    (m : Controller.TaskManager) :
  Controller.tasks (Controller.updateTasks newTasks m) ≡ₚ newTasks ∧
  ascending (Controller.tasks (Controller.updateTasks newTasks m)).
Proof.
  unfold Controller.updateTasks. rewrite maintainSelection_tasks. simpl.
  split; [apply sortByOrder_perm|apply sortByOrder_ascending].
Qed.

(** X2. A list that arrives in ascending [order], as the server's lists
    numbered by position do, is taken as it is: the sort moves nothing,
    tasks with equal [order] included. *)
Theorem updateTasks_keeps_sorted (newTasks : list Controller.Task)
    (m : Controller.TaskManager) :
  ascending newTasks →
  Controller.tasks (Controller.updateTasks newTasks m) = newTasks.
Proof.
  intros H. unfold Controller.updateTasks. rewrite maintainSelection_tasks.
  simpl. by apply sortByOrder_fixed.
Qed.

Lemma updateTasks_keeps_sorted_witness :
  Controller.tasks (Controller.updateTasks
    [Example.seen "a" 0; Example.seen "b" 1; Example.seen "b2" 1; Example.seen "c" 2]
    (Controller.mkManager [] 0))
  = [Example.seen "a" 0; Example.seen "b" 1; Example.seen "b2" 1; Example.seen "c" 2].
Proof.
  apply updateTasks_keeps_sorted. unfold ascending.
  repeat (constructor; [|repeat constructor; vm_compute; discriminate]).
  constructor.
Defined.

(** X3. Whatever the previous list and the previous index (negative or past
    the end included), after [maintainSelection] on a list that is not
    empty the index is inside the list and [getSelectedTask] yields a
    task; on an empty list the index is 0 and there is no selected
    task. *)
Theorem maintainSelection_in_bounds (previousTasks : list Controller.Task)
    (m : Controller.TaskManager) :
  (Controller.tasks m ≠ [] →
   0 ≤ Controller.selectedIndex (Controller.maintainSelection previousTasks m)
     < Js.len (Controller.tasks m) ∧
   is_Some (Controller.getSelectedTask
              (Controller.maintainSelection previousTasks m))) ∧
  (Controller.tasks m = [] →
   Controller.selectedIndex (Controller.maintainSelection previousTasks m) = 0 ∧
   Controller.getSelectedTask (Controller.maintainSelection previousTasks m)
     = None).
Proof.
  split.
  - intros Hne.
    assert (Hlen : 0 < Js.len (Controller.tasks m)).
    { unfold Js.len. destruct (Controller.tasks m); [done|]. simpl length. lia. }
    assert (Hb : 0 ≤ Controller.selectedIndex
                       (Controller.maintainSelection previousTasks m)
                 < Js.len (Controller.tasks m)).
    { unfold Controller.maintainSelection.
      destruct (_ || _); simpl; [lia|].
      destruct (negb _) eqn:E1; simpl.
      { apply negb_true_iff, Z.eqb_neq in E1.
        destruct (Js.at_ previousTasks _); [|done].
        destruct (findIndex_range
          (λ task, String.eqb (Controller.id task) (Controller.id t))
          (Controller.tasks m)); [done|lia]. }
      destruct (_ && _) eqn:E2; simpl; [|lia].
      apply andb_true_iff in E2 as [_ E2].
      apply negb_true_iff, Z.eqb_neq in E2.
      match goal with
      | |- context [Js.findIndex ?p ?l] =>
          destruct (findIndex_range p l); [done|lia]
      end. }
    split; [done|].
    unfold Controller.getSelectedTask. rewrite maintainSelection_tasks.
    destruct (Js.len _ =? 0) eqn:E0; [apply Z.eqb_eq in E0; lia|].
    destruct (_ <? 0) eqn:E1; [apply Z.ltb_lt in E1; lia|].
    destruct (_ <=? _) eqn:E2; [apply Z.leb_le in E2; lia|]. simpl.
    unfold Js.at_. rewrite E1. apply lookup_lt_is_Some. unfold Js.len in Hb. lia.
  - intros He. unfold Controller.getSelectedTask.
    rewrite maintainSelection_tasks. unfold Controller.maintainSelection.
    rewrite He. simpl. by rewrite orb_true_r.
Qed.

Lemma maintainSelection_in_bounds_witness :
  0 ≤ Controller.selectedIndex
        (Controller.maintainSelection
           [Example.seen "a" 0; Example.seen "b" 1; Example.seen "c" 2]
           (Controller.mkManager [Example.seen "a" 0] 7))
    < 1.
Proof.
  apply (maintainSelection_in_bounds
           [Example.seen "a" 0; Example.seen "b" 1; Example.seen "c" 2]
           (Controller.mkManager [Example.seen "a" 0] 7)).
  discriminate.
Defined.

(** X4. The selection survives reordering: when the task selected by index
    in the previous list has its id somewhere in the new list,
    [maintainSelection] selects a task with that id, the first one. *)
Theorem maintainSelection_follows_id (previousTasks : list Controller.Task)
    (m : Controller.TaskManager) (t : Controller.Task) :
  Js.at_ previousTasks (Controller.selectedIndex m) = Some t →
  Js.findIndex (λ task, String.eqb (Controller.id task) (Controller.id t))
    (Controller.tasks m) ≠ -1 →
  Controller.selectedIndex (Controller.maintainSelection previousTasks m)
    = Js.findIndex (λ task, String.eqb (Controller.id task) (Controller.id t))
        (Controller.tasks m) ∧
  ∃ t', Controller.getSelectedTask (Controller.maintainSelection previousTasks m)
          = Some t' ∧
        Controller.id t' = Controller.id t.
Proof.
  intros Hat Hfound.
  assert (Hsel : Controller.selectedIndex
                   (Controller.maintainSelection previousTasks m)
                 = Js.findIndex
                     (λ task, String.eqb (Controller.id task) (Controller.id t))
                     (Controller.tasks m)).
  { unfold Controller.maintainSelection. rewrite Hat.
    pose proof (at_nonneg _ _ _ Hat) as Hp.
    destruct (findIndex_range
      (λ task, String.eqb (Controller.id task) (Controller.id t))
      (Controller.tasks m)) as [?|Hr]; [done|].
    destruct (Js.len previousTasks =? 0) eqn:E0; [apply Z.eqb_eq in E0; lia|].
    destruct (Js.len (Controller.tasks m) =? 0) eqn:E1;
      [apply Z.eqb_eq in E1; lia|]. simpl.
    apply Z.eqb_neq in Hfound. by rewrite Hfound. }
  split; [done|].
  apply Z.eqb_neq in Hfound as Hf'. apply Z.eqb_neq in Hf'.
  destruct (at_findIndex _ _ Hfound) as (t' & Ht' & Hid).
  exists t'. split; [|by apply String.eqb_eq in Hid].
  pose proof (at_nonneg _ _ _ Ht') as Hr.
  unfold Controller.getSelectedTask. rewrite maintainSelection_tasks, Hsel.
  destruct (Js.len _ =? 0) eqn:E0; [apply Z.eqb_eq in E0; lia|].
  destruct (_ <? 0) eqn:E1; [apply Z.ltb_lt in E1; lia|].
  destruct (_ <=? _) eqn:E2; [apply Z.leb_le in E2; lia|]. done.
Qed.

Lemma maintainSelection_follows_id_witness :
  Controller.selectedIndex
    (Controller.maintainSelection
       [Example.seen "a" 0; Example.seen "b" 1; Example.seen "c" 2]
       (Controller.mkManager
          [Example.seen "c" 0; Example.seen "a" 1; Example.seen "b" 2] 1))
    = 2.
Proof.
  apply (maintainSelection_follows_id
           [Example.seen "a" 0; Example.seen "b" 1; Example.seen "c" 2]
           (Controller.mkManager
              [Example.seen "c" 0; Example.seen "a" 1; Example.seen "b" 2] 1)
           (Example.seen "b" 1)); [reflexivity|discriminate].
Defined.

(** X5. With the index inside the list, [selectNext] and [selectPrevious]
    keep it inside, wrap around at the two ends, and undo one another. *)
Theorem select_next_previous (m : Controller.TaskManager) :
  0 ≤ Controller.selectedIndex m < Js.len (Controller.tasks m) →
  0 ≤ Controller.selectedIndex (Controller.selectNext m).1
    < Js.len (Controller.tasks m) ∧
  0 ≤ Controller.selectedIndex (Controller.selectPrevious m).1
    < Js.len (Controller.tasks m) ∧
  (Controller.selectedIndex m = Js.len (Controller.tasks m) - 1 →
   Controller.selectedIndex (Controller.selectNext m).1 = 0) ∧
  (Controller.selectedIndex m = 0 →
   Controller.selectedIndex (Controller.selectPrevious m).1
     = Js.len (Controller.tasks m) - 1) ∧
  Controller.selectPrevious (Controller.selectNext m).1 = 
    (m, [Controller.broadcastSelection m]) ∧
  Controller.selectNext (Controller.selectPrevious m).1 =
    (m, [Controller.broadcastSelection m]).
Proof.
  intros Hb. destruct m as [l i]. simpl in *.
  unfold Controller.selectNext, Controller.selectPrevious. simpl.
  destruct (Js.len l =? 0) eqn:E0; [apply Z.eqb_eq in E0; lia|]. simpl.
  rewrite E0. simpl.
  assert (Hnext : Z.rem (i + 1) (Js.len l)
                  = if i =? Js.len l - 1 then 0 else i + 1).
  { destruct (i =? Js.len l - 1) eqn:E.
    - apply Z.eqb_eq in E. replace (i + 1) with (Js.len l) by lia.
      apply Z.rem_same. lia.
    - apply Z.eqb_neq in E. apply Z.rem_small. lia. }
  rewrite Hnext. clear Hnext.
  assert (Hprev : ∀ k, k = i →
            (if (if k =? Js.len l - 1 then 0 else k + 1) =? 0
             then Js.len l - 1
             else (if k =? Js.len l - 1 then 0 else k + 1) - 1) = i).
  { intros k ->. destruct (i =? Js.len l - 1) eqn:E.
    - apply Z.eqb_eq in E. simpl. lia.
    - apply Z.eqb_neq in E.
      destruct (i + 1 =? 0) eqn:E'; [apply Z.eqb_eq in E'|]; lia. }
  assert (Hback : Z.rem ((if i =? 0 then Js.len l - 1 else i - 1) + 1) (Js.len l)
                  = i).
  { destruct (i =? 0) eqn:E.
    - apply Z.eqb_eq in E. subst i.
      replace (Js.len l - 1 + 1) with (Js.len l) by lia. apply Z.rem_same. lia.
    - apply Z.eqb_neq in E. replace (i - 1 + 1) with i by lia.
      apply Z.rem_small. lia. }
  rewrite (Hprev i eq_refl), Hback. clear Hprev Hback.
  repeat match goal with |- _ ∧ _ => split end; try done.
  - destruct (i =? Js.len l - 1); lia.
  - destruct (i =? Js.len l - 1) eqn:E; [lia|apply Z.eqb_neq in E; lia].
  - destruct (i =? 0) eqn:E; [lia|apply Z.eqb_neq in E; lia].
  - destruct (i =? 0); lia.
  - intros ->. by rewrite Z.eqb_refl.
  - by intros ->.
Qed.

Lemma select_next_previous_witness :
  Controller.selectedIndex (Controller.selectNext
    (Controller.mkManager
       [Example.seen "a" 0; Example.seen "b" 1; Example.seen "c" 2] 2)).1 = 0.
Proof.
  pose proof (select_next_previous
    (Controller.mkManager
       [Example.seen "a" 0; Example.seen "b" 1; Example.seen "c" 2] 2)) as H.
  destruct H as (_ & _ & Hwrap & _).
  - vm_compute. split; [discriminate|reflexivity].
  - apply Hwrap. reflexivity.
Defined.

(** ** The overlay's data source *)

Lemma run_cons_state e es s :
  (Agent.run (e :: es) s).1 = (Agent.run es (Agent.step e s).1).1.
Proof. reflexivity. Qed.

Lemma step_pollingIsPoll e s :
  pollingIsPoll s → pollingIsPoll (Agent.step e s).1.
Proof.
  unfold pollingIsPoll. destruct s; simpl. intros H.
  destruct e; unfold_agent; simpl; repeat case_match; simpl; try done;
    intros; auto.
Qed.

Lemma step_oneChannel e s :
  e ≠ Agent.Start → oneChannel s → oneChannel (Agent.step e s).1.
Proof.
  unfold oneChannel. destruct s; simpl. intros He H.
  destruct e; try done; unfold_agent; simpl; repeat case_match; simpl;
    try lia;
    repeat match goal with
           | E : (0 <? _)%nat = true |- _ => apply Nat.ltb_lt in E
           end; lia.
Qed.

(** X6. Whenever the poll interval runs the source is the poll, in every
    state the agent can get into: the interval is started only by
    [startPolling], which sets the source, and a socket that opens stops
    it. *)
Theorem agent_polling_source (es : list Agent.Event) (s : Agent.State) :
  pollingIsPoll s → pollingIsPoll (Agent.run es s).1.
Proof.
  revert s. induction es as [|e es IH]; intros s H; [done|].
  rewrite run_cons_state. by apply IH, step_pollingIsPoll.
Qed.

Lemma agent_polling_source_witness :
  pollingIsPoll (Agent.run (Example.failing 2) (Agent.fresh false)).1.
Proof.
  apply agent_polling_source. unfold pollingIsPoll. discriminate.
Defined.

(** X7. Within one session the agent never holds two channels: the sockets
    that exist and the reconnect timeouts that are pending are at most
    one in all, so reconnects do not stack. *)
Theorem agent_one_channel (es : list Agent.Event) (s : Agent.State) :
  sameSession es = true → oneChannel s → oneChannel (Agent.run es s).1.
Proof.
  revert s. induction es as [|e es IH]; intros s Hs H; [done|].
  simpl in Hs. apply andb_true_iff in Hs as [He Hs].
  rewrite run_cons_state. apply IH; [done|].
  apply step_oneChannel; [by intros ->|done].
Qed.

Lemma agent_one_channel_witness :
  oneChannel
    (Agent.run [Agent.Close; Agent.StopAgent; Agent.ReconnectTimeout;
                Agent.Open; Agent.Close; Agent.Close; Agent.ReconnectTimeout]
       (Agent.run [Agent.Start] (Agent.fresh false)).1).1.
Proof.
  apply agent_one_channel; [reflexivity|].
  unfold oneChannel. vm_compute. constructor.
Defined.

(** X8. When the socket opens, the attempts are back at 0 and the poll
    interval is stopped; while it stays open a forced reload and a
    stray poll tick fetch nothing, and the reconnect after its next
    close waits one second again. *)
Theorem agent_open_resets (s : Agent.State) :
  (0 < Agent.liveSockets s)%nat →
  0 < Agent.maxReconnectAttempts s →
  Agent.reconnectAttempts (Agent.step Agent.Open s).1 = 0 ∧
  Agent.pollInterval (Agent.step Agent.Open s).1 = false ∧
  Agent.currentSource (Agent.step Agent.Open s).1 = Agent.SrcWs ∧
  Agent.isConnected (Agent.step Agent.Open s).1 = true ∧
  (Agent.run [Agent.Open; Agent.ForceReload; Agent.PollTick] s).2
    = [Agent.Status true Agent.SrcWs] ∧
  Agent.delays (Agent.run [Agent.Open; Agent.Close] s).2 = [1000].
Proof.
  intros Hl Hm.
  destruct s as [w p r c src att mx [|n] pend stp thr]; simpl in Hl, Hm; [lia|].
  assert (Hm' : (0 <? mx) = true) by by apply Z.ltb_lt.
  assert (Hopen : Agent.step Agent.Open
                    (Agent.mkState w p r c src att mx (S n) pend stp thr)
                  = (Agent.mkState w false r true Agent.SrcWs 0 mx (S n) pend
                       stp thr, [Agent.Status true Agent.SrcWs])).
  { by destruct p. }
  rewrite !run_cons_actions, Hopen. cbn [fst snd].
  split_and!; try reflexivity.
  unfold_agent. cbn. rewrite Hm'. reflexivity.
Qed.

Lemma agent_open_resets_witness :
  Agent.delays (Agent.run [Agent.Open; Agent.Close]
    (Agent.run (Example.failing 3 ++ [Agent.ReconnectTimeout])
       (Agent.fresh false)).1).2 = [1000].
Proof.
  apply agent_open_resets; [vm_compute; constructor|reflexivity].
Defined.

(** X9. [stop] does not end the reconnecting: the socket it closes still
    reports its close, and the close handler, with attempts left,
    schedules a reconnect which opens a new socket. *)
Theorem agent_stop_then_close_reconnects (s : Agent.State) :
  (0 < Agent.liveSockets s)%nat →
  Agent.reconnectAttempts s < Agent.maxReconnectAttempts s →
  Agent.constructorThrows s = false →
  Agent.delays (Agent.run [Agent.StopAgent; Agent.Close] s).2
    = [Agent.reconnectDelay (Agent.reconnectAttempts s)] ∧
  Agent.connects
    (Agent.run [Agent.StopAgent; Agent.Close; Agent.ReconnectTimeout] s).2
    = 1%nat ∧
  Agent.ws
    (Agent.run [Agent.StopAgent; Agent.Close; Agent.ReconnectTimeout] s).1
    = true.
Proof.
  intros Hl Hm Ht.
  destruct s as [w p r c src att mx [|n] pend stp thr];
    simpl in Hl, Hm, Ht; [lia|].
  subst thr. cbn [Agent.reconnectAttempts]. apply Z.ltb_lt in Hm.
  assert (Hstop : ∃ acts pend',
    Agent.step Agent.StopAgent
      (Agent.mkState w p r c src att mx (S n) pend stp false)
    = (Agent.mkState false false None false src att mx (S n) pend' stp false,
       acts) ∧ Agent.delays acts = [] ∧ Agent.connects acts = 0%nat).
  { destruct w, p, r; by eexists _, _. }
  destruct Hstop as (acts & pend' & Hstop & Hd & Hc).
  assert (Hclose :
    Agent.step Agent.Close
      (Agent.mkState false false None false src att mx (S n) pend' stp false)
    = (Agent.mkState false false (Some (Agent.reconnectDelay att)) false src
         (att + 1) mx n (S pend') stp false,
       [Agent.ArmReconnect (Agent.reconnectDelay att)])).
  { unfold_agent. cbn. rewrite Hm. reflexivity. }
  rewrite !run_cons_actions, !run_cons_state, Hstop. cbn [fst snd].
  rewrite Hclose. cbn [fst snd].
  rewrite !delays_app, !connects_app, Hd, Hc.
  split_and!; reflexivity.
Qed.

Lemma agent_stop_then_close_reconnects_witness :
  Agent.connects
    (Agent.run [Agent.StopAgent; Agent.Close; Agent.ReconnectTimeout]
       (Agent.run [Agent.Start; Agent.Open] (Agent.fresh false)).1).2
    = 1%nat.
Proof.
  apply agent_stop_then_close_reconnects;
    [vm_compute; constructor|reflexivity|reflexivity].
Defined.

(** X10. When [new WebSocket] throws, [start] goes straight to polling, and
    for the rest of the session no socket is opened and no reconnect is
    scheduled. *)
Theorem agent_constructor_throws (es : list Agent.Event) :
  sameSession es = true →
  (Agent.step Agent.Start (Agent.fresh true)).2
    = [Agent.Status false Agent.SrcPoll; Agent.Fetch] ∧
  Agent.pollInterval (Agent.step Agent.Start (Agent.fresh true)).1 = true ∧
  Agent.connects (Agent.run (Agent.Start :: es) (Agent.fresh true)).2 = 0%nat ∧
  Agent.delays (Agent.run (Agent.Start :: es) (Agent.fresh true)).2 = [].
Proof.
  intros Hs. split_and!; [reflexivity|reflexivity| |].
  - rewrite run_cons_actions, connects_app.
    by destruct (run_quiet es (Agent.step Agent.Start (Agent.fresh true)).1
                   eq_refl eq_refl Hs) as [-> _].
  - rewrite run_cons_actions, delays_app.
    by destruct (run_quiet es (Agent.step Agent.Start (Agent.fresh true)).1
                   eq_refl eq_refl Hs) as [_ ->].
Qed.

Lemma agent_constructor_throws_witness :
  Agent.connects
    (Agent.run [Agent.Start; Agent.StartTimeout; Agent.PollTick; Agent.Close;
                Agent.ReconnectTimeout; Agent.ForceReload]
       (Agent.fresh true)).2 = 0%nat.
Proof.
  apply (agent_constructor_throws
           [Agent.StartTimeout; Agent.PollTick; Agent.Close;
            Agent.ReconnectTimeout; Agent.ForceReload]).
  reflexivity.
Defined.

(** ** The server: who may call, and what the file does *)

Lemma substring_all s : String.substring 0 (String.length s) s = s.
Proof. induction s as [|c s IH]; simpl; [done|]. by rewrite IH. Qed.

Lemma prefix_split p s :
  String.prefix p s = true →
  s = (p +:+ Js.substringFrom (String.length p) s).
Proof.
  unfold Js.substringFrom. revert s.
  induction p as [|a p IH]; intros s; simpl.
  - intros _. by rewrite Nat.sub_0_r, substring_all.
  - destruct s as [|b s]; [done|]. simpl.
    destruct (Ascii.ascii_dec a b) as [->|]; [|done].
    intros H. change (String b p +:+ ?x) with (String b (p +:+ x)).
    f_equal. by apply IH.
Qed.

Lemma bearer_header h :
  Js.startsWith "Bearer " h = true →
  String.eqb (Js.substringFrom 7 h) adminToken = true →
  h = adminHeader.
Proof.
  intros Hp%prefix_split He%String.eqb_eq.
  change (String.length "Bearer ") with 7%nat in Hp.
  rewrite He in Hp. exact Hp.
Qed.

Lemma authenticateAdmin_rejects authorization next w :
  authorization ≠ Some adminHeader →
  ∃ st msg, (st = 401 ∨ st = 403) ∧
    authenticateAdmin authorization next w = (tt, w, [Respond st (BError msg)]).
Proof.
  intros Hne. unfold authenticateAdmin.
  destruct (truthy authorization) as [h|] eqn:Hh; [|eexists _, _; eauto].
  apply truthy_Some in Hh as [-> _].
  destruct (Js.startsWith "Bearer " h) eqn:E1; simpl; [|eexists _, _; eauto].
  destruct (String.eqb (Js.substringFrom 7 h) adminToken) eqn:E2; simpl;
    [|eexists _, _; eauto].
  by rewrite (bearer_header h E1 E2) in Hne.
Qed.

(** X11. A request that mutates or selects is served only when the
    [Authorization] header is exactly ["Bearer devtoken"]: with any
    other header, or none, the answer is 401 or 403 and nothing is
    changed, written or sent. The task list is read without any
    credential, and reading changes nothing. *)
Theorem only_admin_header_passes (authorization : option string)
    (r : Route) (w : World) :
  guarded r = true →
  authorization ≠ Some adminHeader →
  (∃ st msg, (st = 401 ∨ st = 403) ∧
     handle (Http authorization r) w = (tt, w, [Respond st (BError msg)])) ∧
  (∀ next, authenticateAdmin (Some adminHeader) next w = next w) ∧
  handle (Http authorization GetTasks) w = handle (Http None GetTasks) w ∧
  after (handle (Http authorization GetTasks) w) = w.
Proof.
  intros Hg Hne. split_and!.
  - destruct r; try done; simpl; by apply authenticateAdmin_rejects.
  - reflexivity.
  - reflexivity.
  - simpl. unfold getTasks, noData, emit. by destruct (lastData w).
Qed.

Lemma only_admin_header_passes_witness :
  ∃ st msg, (st = 401 ∨ st = 403) ∧
    handle (Http (Some "Bearer devtoken2") (PostDelete (Some "a")))
      (Example.world Example.abc)
    = (tt, Example.world Example.abc, [Respond st (BError msg)]).
Proof.
  apply (only_admin_header_passes (Some "Bearer devtoken2")
           (PostDelete (Some "a")) (Example.world Example.abc));
    [reflexivity|discriminate].
Defined.

Lemma route_unloaded authorization r w :
  lastData w = None →
  ∃ st body, route authorization r w = (tt, w, [Respond st body]) ∧
             (st = 200 → r = GetControl).
Proof.
  intros Hd.
  assert (Hadmin : ∀ next,
    (∃ st body, next w = (tt, w, [Respond st body]) ∧ st ≠ 200) →
    ∃ st body, authenticateAdmin authorization next w = (tt, w, [Respond st body])
               ∧ st ≠ 200).
  { intros next (st & body & Hn & Hst). unfold authenticateAdmin, emit.
    destruct (truthy authorization); [|by eexists _, _].
    destruct (negb _); [by eexists _, _|].
    destruct (negb _); [by eexists _, _|]. by eexists _, _. }
  destruct r as [| |i|c|rnd t|i|i t|i|i|i|i p|]; unfold route.
  1: { unfold getTasks, noData, emit. rewrite Hd. by eexists _, _. }
  11: { by eexists _, _. }
  all: match goal with
       | |- context [authenticateAdmin _ ?n _] =>
           destruct (Hadmin n) as (st & body & -> & Hst);
             [|exists st, body; by split]
       end.
  all: unfold postToggleNext, postToggle, postReset, postAdd, postDelete,
         postEdit, postSelect, postMoveUp, postMoveDown, postMoveToPosition,
         noData, emit; rewrite ?Hd; repeat case_match; by eexists _, _.
Qed.

(** X12. Before a tasks file has been loaded the server holds no data, and no
    request can give it any: every request is answered with an error
    (only the control page is served) and leaves the state as it is. *)
Theorem unloaded_store_refuses (authorization : option string) (r : Route)
    (w : World) :
  lastData w = None →
  ∃ st body,
    handle (Http authorization r) w = (tt, w, [Respond st body]) ∧
    (st = 200 → r = GetControl).
Proof. apply route_unloaded. Qed.

Lemma unloaded_store_refuses_witness :
  ∃ st body,
    handle (Http Example.bearer (PostAdd "r" (Some "task")))
      (construct 5000 FileMissing true)
    = (tt, construct 5000 FileMissing true, [Respond st body]) ∧
    (st = 200 → PostAdd "r" (Some "task") = GetControl).
Proof. apply unloaded_store_refuses. reflexivity. Defined.

(** X13. A change event for a file that is missing, cannot be read or parsed,
    or has no [items] array is dropped: the data in memory, the clients
    and everything else stay as they were and nothing is sent. *)
Theorem bad_file_is_ignored (w : World) :
  match file w with
  | FileJson (Some _) _ _ => False
  | _ => True
  end →
  handle FileChange w = (tt, w, []).
Proof.
  simpl. unfold loadAndBroadcast, loadTasksFile, bind, ret.
  destruct (file w) as [| |[its|] t sl]; simpl; by intros.
Qed.

Lemma bad_file_is_ignored_witness :
  handle FileChange (setFile FileUnreadable (Example.world Example.abc))
    = (tt, setFile FileUnreadable (Example.world Example.abc), []).
Proof. apply bad_file_is_ignored. exact I. Defined.

(** X14. What [saveTasksFile] wrote is what [loadTasksFile] reads back, at
    any later time: after a save the reload triggered by the server's
    own write puts the same data in memory again. (The clock must have
    passed its first second: a timestamp of 0 is read as missing.) *)
Theorem save_then_load (w : World) (d : ChecklistData) (later : Z) :
  lastData w = Some d →
  fileWritable w = true →
  1000 ≤ clock w →
  result (saveTasksFile w) = true ∧
  result (loadTasksFile (setClock later (after (saveTasksFile w))))
    = lastData (after (saveTasksFile w)) ∧
  lastData (after (handle FileChange (setClock later (after (saveTasksFile w)))))
    = lastData (after (saveTasksFile w)) ∧
  storeItems (after (saveTasksFile w)) = items d.
Proof.
  intros Hd Hw Hc. open_world w.
  assert (ck / 1000 ≠ 0) as Hts.
  { intros H0. pose proof (Z.div_le_mono 1000 ck 1000 ltac:(lia) Hc) as Hm.
    rewrite Z.div_same in Hm by lia. lia. }
  apply Z.eqb_neq in Hts.
  unfold loadAndBroadcast, loadTasksFile, broadcastToAll, fanOut, storeItems.
  unfold_monad. simpl. rewrite Hts. simpl.
  split_and!; try done. by destruct (Js.len cl =? 0).
Qed.

Lemma save_then_load_witness :
  lastData (after (handle FileChange (setClock 9000
    (after (saveTasksFile (Example.world Example.abc))))))
  = lastData (after (saveTasksFile (Example.world Example.abc))).
Proof.
  apply (save_then_load (Example.world Example.abc)
           (mkData Example.abc 100 None) 9000);
    [reflexivity|reflexivity|vm_compute; discriminate].
Defined.





(** X16. [stop] does not lose a pending debounced save: with a timeout
    pending and the file writable it writes the data in memory at once,
    clears the timeout, closes the open clients and empties the
    registry; with no timeout pending it writes nothing. *)
Theorem stop_flushes_pending_save (w : World) (d : ChecklistData) (due : Z) :
  lastData w = Some d →
  saveTimeout w = Some due →
  fileWritable w = true →
  writes (effects (handle Stop w)) = [setTs (clock w / 1000) d] ∧
  file (after (handle Stop w)) = stored (setTs (clock w / 1000) d) ∧
  storeItems (after (handle Stop w)) = items d ∧
  saveTimeout (after (handle Stop w)) = None ∧
  clients (after (handle Stop w)) = [] ∧
  writes (effects (handle Stop (setSaveTimeout None w))) = [].
Proof.
  intros Hd Hs Hw. open_world w. unfold stop, storeItems. unfold_monad. simpl.
  unfold writes.
  assert (∀ l : list nat,
            omap (λ e, match e with WriteFile d0 => Some d0 | _ => None end)
              (map CloseSocket l) = []) as Hclose by (by induction l).
  rewrite !Hclose. by split_and!.
Qed.

Lemma stop_flushes_pending_save_witness :
  map id (storeItems (after (handle Stop
    (after (moveTaskUp "b" (Example.world Example.abc))))))
    = ["b"; "a"; "c"] ∧
  map (λ d, map id (items d)) (writes (effects (handle Stop
    (after (moveTaskUp "b" (Example.world Example.abc))))))
    = [["b"; "a"; "c"]].
Proof.
  pose proof (stop_flushes_pending_save
    (after (moveTaskUp "b" (Example.world Example.abc)))
    (mkData [Example.task "b" 0; Example.task "a" 1; Example.task "c" 2] 100 None)
    5100 eq_refl eq_refl eq_refl) as (Hw & _ & Hi & _).
  split; [by rewrite Hi|by rewrite Hw].
Defined.

Lemma select_validates_witness :
  selectionValid (Snapshot Example.abc 100 (Some "b")).
Proof.
  apply (select_validates Example.bearer (Some "b")
           (Example.world Example.abc) [1%nat]).
  vm_compute. constructor.
Defined.

(** ** The earlier server *)

Lemma legacy_handle_interval e w :
  broadcastInterval (after (Legacy.handle e w)) = broadcastInterval w.
Proof.
  destruct e; simpl.
  - open_world w. unfold onConnection, sendToClient. unfold_monad. simpl.
    destruct ld; simpl; [|done]. by repeat case_match.
  - by open_world w.
  - by open_world w.
  - open_world w. unfold Legacy.loadAndBroadcast, loadTasksFile,
      Legacy.broadcastToAll, fanOut. unfold_monad. simpl.
    by repeat (case_match; simpl).
  - open_world w. unfold Legacy.intervalFires, Legacy.broadcastToAll, fanOut.
    unfold_monad. simpl. by repeat (case_match; simpl).
Qed.

Lemma legacy_run_interval es w :
  broadcastInterval (after (Legacy.run es w)) = broadcastInterval w.
Proof.
  revert w. induction es as [|e es IH]; intros w; [done|].
  change (after (Legacy.run (e :: es) w))
    with (after (Legacy.run es (after (Legacy.handle e w)))).
  by rewrite IH, legacy_handle_interval.
Qed.

(** X18. In the earlier server the 2-second interval is started by the
    constructor and no connection, close, error, file change or tick
    stops it; at every tick, with data loaded
    and a client registered, the unchanged data is sent again to every
    client that can be sent to, whether or not anything changed. *)
Theorem legacy_broadcasts_forever (es : list Legacy.Event) (now : Z)
    (content : FileContent) (w : World) (d : ChecklistData) :
  lastData w = Some d →
  clients w ≠ [] →
  is_Some (broadcastInterval w) →
  broadcastInterval (after (Legacy.run es (Legacy.construct now content)))
    = Some 2000 ∧
  (∃ sl, broadcasts (effects (Legacy.handle Legacy.Interval w))
           = [(fanned w, Snapshot (items d) (ts d) sl)]) ∧
  lastData (after (Legacy.handle Legacy.Interval w)) = Some d.
Proof.
  intros Hd Hc [iv Hi].
  assert (Htick : Legacy.handle Legacy.Interval w
                  = fanOut (Snapshot (items d) (ts d) None) w).
  { revert Hd Hc Hi. open_world w. intros -> Hc ->.
    unfold Legacy.intervalFires, Legacy.broadcastToAll. simpl.
    destruct cl as [|c cl]; [done|]. unfold Js.len. simpl length.
    destruct (0 <? Z.of_nat (S (length cl))) eqn:E1;
      [|apply Z.ltb_ge in E1; lia].
    by destruct (Z.of_nat (S (length cl)) =? 0) eqn:E2;
      [apply Z.eqb_eq in E2; lia|]. }
  split_and!.
  - rewrite legacy_run_interval. unfold Legacy.construct.
    change (after ((Legacy.loadAndBroadcast;;; Legacy.startPeriodicBroadcast) ?w))
      with (after (Legacy.startPeriodicBroadcast (after (Legacy.loadAndBroadcast w)))).
    reflexivity.
  - exists None. by rewrite Htick.
  - rewrite Htick. by destruct w.
Qed.

Lemma legacy_broadcasts_forever_witness :
  ∃ sl, broadcasts (effects (Legacy.handle Legacy.Interval
          (after (Legacy.startPeriodicBroadcast (Example.world Example.abc)))))
        = [([1%nat], Snapshot Example.abc 100 sl)].
Proof.
  apply (legacy_broadcasts_forever [] 0 FileMissing
           (after (Legacy.startPeriodicBroadcast (Example.world Example.abc)))
           (mkData Example.abc 100 None)); [reflexivity|discriminate|].
  by eexists.
Defined.

(** ** The client registry *)

Lemma perform_effects_shape m w :
  (perform m w).1.2 = w ∧ effects (perform m w) = [] ∨
  ∃ l' pre, effects (perform m w) = pre ++ announce l' w ∧
            broadcasts pre = [] ∧
            clients (after (perform m w)) = remaining w ∧
            openSockets (after (perform m w)) = openSockets w ∧
            throwingSockets (after (perform m w)) = throwingSockets w.
Proof.
  destruct (lastData w) as [d|] eqn:Hd.
  - rewrite (perform_plan m w d Hd).
    destruct (plan m (clock w) (items d)) as [| |l'|l']; cbn [carryOut];
      [by left|by left| |].
    + right. rewrite (savedNow_eq w d l' Hd). eexists l', _.
      split; [reflexivity|]. by destruct (fileWritable w).
    + right. rewrite (savedLater_eq w d l' Hd). by exists l', [].
  - left. by rewrite (perform_unloaded m w Hd).
Qed.

Lemma broadcasts_announce l' w :
  broadcasts (announce l' w) ≠ [] →
  broadcasts (announce l' w)
    = [(fanned w, TasksUpdated l' (truthy (selectedTaskId w)))] ∧
  remaining w = fanned w.
Proof.
  unfold announce, remaining. by destruct (Js.len (clients w) =? 0).
Qed.

Lemma selecting_shape chosen w :
  clients (after (selecting chosen w)) = clients w ∧
  effects (selecting chosen w) = [] ∨
  ∃ p, effects (selecting chosen w) = [Broadcast (fanned w) p] ∧
       clients (after (selecting chosen w)) = fanned w.
Proof.
  destruct w as [ld cl sl st bi ck f fw os thr].
  unfold selecting, broadcastSelectionUpdate, fanOut. unfold_monad. simpl.
  destruct ld; [right; by eexists|by left].
Qed.

(** X19. One event makes at most one broadcast; it goes to exactly the
    registered clients whose socket is open and whose [send] does not
    throw, and those clients are the registry afterwards: the others are
    dropped, not retried. *)
Theorem broadcast_prunes_registry (e : Event) (w : World) :
  broadcasts (effects (handle e w)) ≠ [] →
  (∃ p, broadcasts (effects (handle e w)) = [(fanned w, p)]) ∧
  clients (after (handle e w)) = fanned w ∧
  Forall (λ ws, sendable w ws = true) (clients (after (handle e w))).
Proof.
  intros H.
  assert (Hmain : (∃ p, broadcasts (effects (handle e w)) = [(fanned w, p)]) ∧
                  clients (after (handle e w)) = fanned w).
  { assert (Hb : ∀ X st body,
              broadcasts (X ++ [Respond st body]) = broadcasts X).
    { intros. rewrite broadcasts_app. apply app_nil_r. }
    destruct e as [auth r|ws|ws|ws| | |]; simpl in *.
    - destruct (route_cases auth r w)
        as [(st & body & Heq)|[(m & st & body & Ha & He)|(sl & body & _ & Ha & He)]].
      + by rewrite Heq in H.
      + rewrite He, Hb in *. rewrite Ha.
        destruct (perform_effects_shape m w)
          as [[_ Hnil]|(l' & pre & Hpre & Hq & Hc & _)];
          [by rewrite Hnil in H|].
        rewrite Hpre, broadcasts_app, Hq in *. simpl in *.
        destruct (broadcasts_announce l' w H) as [-> Hr].
        rewrite Hc, Hr. split; [by eexists|done].
      + rewrite He, Hb in *. rewrite Ha.
        destruct (selecting_shape (truthy sl) w) as [[_ Hnil]|(p & Hp & Hc)];
          [by rewrite Hnil in H|].
        rewrite Hp, Hc. split; [by eexists|done].
    - exfalso. apply H. open_world w. unfold onConnection, sendToClient.
      unfold_monad. simpl. destruct ld; simpl; [|done]. by repeat case_match.
    - by exfalso.
    - by exfalso.
    - revert H. open_world w.
      unfold loadAndBroadcast, loadTasksFile, fanned. unfold_monad. simpl.
      destruct f as [| |[its|] t sl]; simpl; try done.
      destruct (Js.len cl =? 0); simpl; [done|]. intros _.
      split; [by eexists|done].
    - exfalso. apply H, handle_timer_silent.
    - exfalso. apply H. open_world w. unfold stop. unfold_monad. simpl.
      destruct st; simpl; [destruct ld; simpl; [destruct fw|]|]; simpl;
        apply broadcasts_closing. }
  destruct Hmain as [Hp Hc]. split_and!; [done|done|].
  rewrite Hc. unfold fanned. apply Forall_forall. intros ws Hin.
  apply list_elem_of_In, filter_In in Hin. by destruct Hin.
Qed.

Lemma broadcast_prunes_registry_witness :
  clients (after (handle (Http Example.bearer (PostToggle (Some "a")))
    (setClients [1%nat; 2%nat; 3%nat] (Example.world Example.abc))))
  = [1%nat].
Proof.
  apply (broadcast_prunes_registry
           (Http Example.bearer (PostToggle (Some "a")))
           (setClients [1%nat; 2%nat; 3%nat] (Example.world Example.abc))).
  vm_compute. discriminate.
Defined.

Lemma filter_all {A} (l : list A) : List.filter (λ _, true) l = l.
Proof. induction l as [|x l IH]; simpl; [done|]. by rewrite IH. Qed.

Lemma clients_shape e w :
  ∃ keep,
    clients (after (handle e w)) = List.filter keep (clients w) ∨
    ∃ ws, e = WsConnection ws ∧
          clients (after (handle e w))
            = List.filter keep (addClient ws (clients w)).
Proof.
  destruct e as [auth r|ws|ws|ws| | |]; simpl.
  - destruct (route_cases auth r w)
      as [(st & body & ->)|[(m & st & body & -> & _)|(sl & body & _ & -> & _)]].
    + exists (λ _, true). left. by rewrite filter_all.
    + destruct (perform_effects_shape m w)
        as [[Hw _]|(l' & pre & _ & _ & Hc & _)].
      * exists (λ _, true). left. unfold after. by rewrite Hw, filter_all.
      * rewrite Hc. unfold remaining, fanned.
        destruct (Js.len (clients w) =? 0).
        -- exists (λ _, true). left. by rewrite filter_all.
        -- eexists. by left.
    + destruct (selecting_shape (truthy sl) w) as [[-> _]|(p & _ & ->)].
      * exists (λ _, true). left. by rewrite filter_all.
      * eexists. by left.
  - open_world w. unfold onConnection, sendToClient. unfold_monad. simpl.
    destruct ld; simpl.
    + repeat case_match; simpl.
      * eexists. right. by eexists.
      * exists (λ _, true). right. exists ws. by rewrite filter_all.
      * exists (λ _, true). right. exists ws. by rewrite filter_all.
    + exists (λ _, true). right. exists ws. by rewrite filter_all.
  - eexists. by left.
  - eexists. by left.
  - open_world w. unfold loadAndBroadcast, loadTasksFile, fanOut.
    unfold_monad. simpl.
    destruct f as [| |[its|] t sl]; simpl;
      try (exists (λ _, true); left; by rewrite filter_all).
    destruct (Js.len cl =? 0); simpl.
    + exists (λ _, true). left. by rewrite filter_all.
    + eexists. by left.
  - open_world w. unfold saveTimeoutFires. unfold_monad. simpl.
    exists (λ _, true). left. rewrite filter_all.
    destruct st; simpl; [destruct ld; simpl; [destruct fw|]|]; done.
  - open_world w. unfold stop. unfold_monad. simpl.
    exists (λ _, false). left.
    destruct st; simpl; [destruct ld; simpl; [destruct fw|]|]; simpl;
      by induction cl.
Qed.

Lemma elem_of_List_filter {A} (p : A → bool) (l : list A) x :
  x ∈ List.filter p l → x ∈ l.
Proof. intros Hin%list_elem_of_In%filter_In. apply list_elem_of_In. by destruct Hin. Qed.

Lemma NoDup_List_filter {A} (p : A → bool) (l : list A) :
  NoDup l → NoDup (List.filter p l).
Proof.
  induction 1 as [|x l Hx Hl IH]; simpl; [constructor|].
  destruct (p x); [|done]. constructor; [|done].
  intros Hin. by apply Hx, (elem_of_List_filter p).
Qed.

Lemma NoDup_addClient ws l : NoDup l → NoDup (addClient ws l).
Proof.
  intros H. unfold addClient. case_bool_decide as Hin; [done|].
  apply NoDup_app. split_and!; [done| |apply NoDup_singleton].
  intros x Hx ->%list_elem_of_singleton. done.
Qed.

(** X20. The registry behaves as a set: no event makes a client appear in it
    twice, and only a new connection adds a client; every other event
    leaves the clients that were there, or fewer of them. *)
Theorem registry_is_a_set (es : list Event) (e : Event) (w : World) :
  NoDup (clients w) →
  NoDup (clients (after (run es w))) ∧
  ((∀ ws, e ≠ WsConnection ws) →
   ∀ ws, ws ∈ clients (after (handle e w)) → ws ∈ clients w).
Proof.
  intros Hnd. split.
  - revert w Hnd. induction es as [|e' es IH]; intros w Hnd; [done|].
    change (after (run (e' :: es) w)) with (after (run es (after (handle e' w)))).
    apply IH. destruct (clients_shape e' w) as (keep & [-> |(ws & _ & ->)]).
    + by apply NoDup_List_filter.
    + by apply NoDup_List_filter, NoDup_addClient.
  - intros He ws. destruct (clients_shape e w) as (keep & [-> |(ws' & -> & _)]).
    + apply elem_of_List_filter.
    + by destruct (He ws').
Qed.

Lemma registry_is_a_set_witness :
  NoDup (clients (after (run
    [WsConnection 2; WsConnection 1; WsConnection 2;
     Http Example.bearer (PostToggle (Some "a")); WsClose 1; WsConnection 1]
    (Example.world Example.abc)))).
Proof.
  apply (registry_is_a_set _ Stop (Example.world Example.abc)).
  vm_compute. repeat constructor. intros H. inversion H.
Defined.

(** ** What the list operations do to the tasks *)

Lemma unordered_setOrder n t : unordered (setOrder n t) = unordered t.
Proof. by destruct t. Qed.

Lemma unordered_renumber l : map unordered (renumber l) = map unordered l.
Proof.
  apply list_eq. intros i. unfold renumber.
  rewrite !list_lookup_fmap, list_lookup_imap.
  destruct (l !! i); simpl; [|done]. by rewrite unordered_setOrder.
Qed.

Lemma unordered_updAt i n l :
  map unordered (Js.updAt i (setOrder n) l) = map unordered l.
Proof.
  unfold Js.updAt. apply list_eq. intros k. rewrite !list_lookup_fmap.
  destruct (decide (Z.to_nat i = k)) as [<-|Hne].
  - rewrite list_lookup_alter_eq. destruct (l !! Z.to_nat i); simpl; [|done].
    by rewrite unordered_setOrder.
  - by rewrite list_lookup_alter_ne.
Qed.

Lemma at_lookup {A} (l : list A) k x :
  Js.at_ l k = Some x → l !! Z.to_nat k = Some x.
Proof. unfold Js.at_. by destruct (k <? 0). Qed.

Lemma swapWith_Permutation k j task other l :
  Js.at_ l k = Some task → Js.at_ l j = Some other →
  map unordered (swapWith k j task l) ≡ₚ map unordered l.
Proof.
  intros Hk%at_lookup Hj. unfold swapWith. rewrite Hj. apply at_lookup in Hj.
  rewrite !unordered_updAt. apply fmap_Permutation. unfold Js.setAt.
  by apply Permutation_insert_swap.
Qed.

Lemma at_in_range {A} (l : list A) k :
  0 ≤ k < Js.len l → is_Some (Js.at_ l k).
Proof.
  unfold Js.at_, Js.len. intros Hk.
  destruct (k <? 0) eqn:E; [apply Z.ltb_lt in E; lia|].
  apply lookup_lt_is_Some. lia.
Qed.

Lemma spliceOut_Permutation {A} (l : list A) k x :
  Js.at_ l k = Some x → x :: Js.spliceOut k l ≡ₚ l.
Proof.
  intros H%at_lookup. unfold Js.spliceOut. symmetry. by apply delete_Permutation.
Qed.

Lemma spliceIn_Permutation {A} (l : list A) c x :
  Js.spliceIn c x l ≡ₚ x :: l.
Proof.
  unfold Js.spliceIn. rewrite <- Permutation_middle. by rewrite take_drop.
Qed.

Lemma plan_reorder_Permutation m now l :
  reorders m = true →
  map unordered (planned (plan m now l) l) ≡ₚ map unordered l.
Proof.
  intros Hm.
  destruct m as [i| |rnd t|i|i t|i|i|i p]; try done; cbn [plan planned].
  - destruct (Js.at_ l (Js.findIndex (hasId i) l)) as [task|] eqn:Hk;
      [|done].
    pose proof (at_nonneg _ _ _ Hk) as Hr.
    destruct (_ =? 0) eqn:E; cbn [planned].
    + rewrite unordered_renumber, fmap_app. simpl.
      rewrite <- Permutation_cons_append, <- fmap_cons.
      apply fmap_Permutation. by apply spliceOut_Permutation.
    + apply Z.eqb_neq in E.
      destruct (at_in_range l (Js.findIndex (hasId i) l - 1)) as [o Ho];
        [lia|].
      by eapply swapWith_Permutation.
  - destruct (Js.at_ l (Js.findIndex (hasId i) l)) as [task|] eqn:Hk;
      [|done].
    pose proof (at_nonneg _ _ _ Hk) as Hr.
    destruct (_ =? Js.len l - 1) eqn:E; cbn [planned].
    + rewrite unordered_renumber.
      apply fmap_Permutation. by apply spliceOut_Permutation.
    + apply Z.eqb_neq in E.
      destruct (at_in_range l (Js.findIndex (hasId i) l + 1)) as [o Ho];
        [lia|].
      by eapply swapWith_Permutation.
  - destruct (Js.at_ l (Js.findIndex (hasId i) l)) as [task|] eqn:Hk;
      [|done].
    destruct (_ =? _); cbn [planned]; [done|].
    rewrite unordered_renumber. apply fmap_Permutation.
    rewrite spliceIn_Permutation. by apply spliceOut_Permutation.
Qed.

(** X21. A reorder loses no task, duplicates none and changes none: apart
    from the [order] fields the tasks after [moveTaskUp], [moveTaskDown]
    or [moveTaskToPosition] are the tasks before, in another order. *)
Theorem reorder_keeps_tasks (m : Mutation) (w : World) :
  reorders m = true →
  map unordered (storeItems (after (perform m w)))
    ≡ₚ map unordered (storeItems w) ∧
  length (storeItems (after (perform m w))) = length (storeItems w).
Proof.
  intros Hm.
  assert (map unordered (storeItems (after (perform m w)))
            ≡ₚ map unordered (storeItems w)) as Hp.
  { destruct (lastData w) as [d|] eqn:Hd;
      [|by rewrite (perform_unloaded m w Hd)].
    rewrite (perform_items m w d Hd). unfold storeItems. rewrite Hd.
    by apply plan_reorder_Permutation. }
  split; [done|].
  apply Permutation_length in Hp. by rewrite !length_map in Hp.
Qed.

Lemma reorder_keeps_tasks_witness :
  length (storeItems (after (perform (MoveToPosition "a" 7)
                               (Example.world Example.abc)))) = 3%nat.
Proof.
  apply (reorder_keeps_tasks (MoveToPosition "a" 7) (Example.world Example.abc)).
  reflexivity.
Defined.

Lemma perform_then m w d :
  lastData w = Some d →
  ∃ d', lastData (after (perform m w)) = Some d' ∧
        items d' = planned (plan m (clock w) (items d)) (items d) ∧
        clock (after (perform m w)) = clock w.
Proof.
  intros Hd. rewrite (perform_plan m w d Hd).
  destruct (plan m (clock w) (items d)) as [| |l'|l']; cbn [carryOut planned].
  - by exists d.
  - by exists d.
  - rewrite (savedNow_eq w d l' Hd). by eexists.
  - rewrite (savedLater_eq w d l' Hd). by eexists.
Qed.

Lemma perform_result m w d :
  lastData w = Some d →
  result (perform m w)
    = match plan m (clock w) (items d) with Refuse => false | _ => true end.
Proof. intros Hd. rewrite (perform_plan m w d Hd). by apply (carryOut_result _ w d). Qed.

Lemma id_unordered l : map id (map unordered l) = map id l.
Proof. rewrite map_map. apply map_ext. by intros []. Qed.

Lemma hasId_false i (l : list ChecklistItem) :
  i ∉ map id l → Js.findIndex (hasId i) l = -1.
Proof.
  intros Hi. apply findIndex_absent, Forall_forall. intros x Hx.
  unfold hasId. apply String.eqb_neq. intros <-.
  apply Hi, list_elem_of_fmap. by exists x.
Qed.

Lemma hasId_true i x : hasId i x = true → id x = i.
Proof. unfold hasId. by intros ?%String.eqb_eq. Qed.

Lemma delete_drops_unique {A B} (f : A → B) (l : list A) k x :
  NoDup (map f l) → l !! k = Some x → f x ∉ map f (delete k l).
Proof.
  intros Hnd Hk. apply delete_Permutation in Hk.
  apply (fmap_Permutation f) in Hk. rewrite fmap_cons in Hk.
  change (map f l) with (f <$> l) in Hnd. rewrite Hk in Hnd.
  by apply NoDup_cons_1_1 in Hnd.
Qed.

(** X22. [deleteTask] takes out one task, the first that has the id, and
    leaves the others as they were and in their order, renumbered by
    position. When the ids are distinct, the id is then gone, and a
    second delete of it is refused. *)
Theorem delete_removes_first (i : string) (w : World) (d : ChecklistData) :
  lastData w = Some d →
  Js.findIndex (hasId i) (items d) ≠ -1 →
  result (perform (Delete i) w) = true ∧
  map unordered (storeItems (after (perform (Delete i) w)))
    = map unordered
        (delete (Z.to_nat (Js.findIndex (hasId i) (items d))) (items d)) ∧
  positional (storeItems (after (perform (Delete i) w))) ∧
  (NoDup (map id (items d)) →
   (i ∉ map id (storeItems (after (perform (Delete i) w)))) ∧
   result (perform (Delete i) (after (perform (Delete i) w))) = false).
Proof.
  intros Hd Hk.
  assert (Hplan : plan (Delete i) (clock w) (items d)
                  = SaveNow (renumber (Js.spliceOut
                      (Js.findIndex (hasId i) (items d)) (items d)))).
  { simpl. by apply Z.eqb_neq in Hk as ->. }
  assert (Hitems : storeItems (after (perform (Delete i) w))
                   = renumber (Js.spliceOut
                       (Js.findIndex (hasId i) (items d)) (items d))).
  { by rewrite (perform_items _ w d Hd), Hplan. }
  split_and!.
  - by rewrite (perform_result _ w d Hd), Hplan.
  - by rewrite Hitems, unordered_renumber.
  - rewrite Hitems. apply positional_renumber.
  - intros Hnd.
    assert (Hgone : i ∉ map id (storeItems (after (perform (Delete i) w)))).
    { rewrite Hitems, <- id_unordered, unordered_renumber, id_unordered.
      destruct (findIndex_found _ _ Hk) as (k & x & Hf & Hx & Hp & _).
      rewrite Hf. unfold Js.spliceOut. rewrite Nat2Z.id.
      rewrite <- (hasId_true i x Hp). by apply delete_drops_unique. }
    split; [done|].
    destruct (perform_then (Delete i) w d Hd) as (d' & Hd' & Hi' & _).
    rewrite (perform_result _ _ d' Hd').
    assert (items d' = storeItems (after (perform (Delete i) w))) as ->
      by (unfold storeItems; by rewrite Hd').
    cbn [plan]. by rewrite (hasId_false i _ Hgone).
Qed.

Lemma delete_removes_first_witness :
  map id (storeItems (after (perform (Delete "b") (Example.world Example.abc))))
    = ["a"; "c"] ∧
  result (perform (Delete "b")
            (after (perform (Delete "b") (Example.world Example.abc)))) = false.
Proof.
  pose proof (delete_removes_first "b" (Example.world Example.abc)
                (mkData Example.abc 100 None) eq_refl) as H.
  destruct H as (_ & Hu & _ & Hn); [vm_compute; discriminate|].
  split.
  - by rewrite <- id_unordered, Hu.
  - apply Hn, (bool_decide_unpack _). vm_compute. reflexivity.
Defined.

Lemma renumber_positional l : positional l → renumber l = l.
Proof.
  intros H. apply list_eq. intros k. unfold renumber.
  rewrite list_lookup_imap. destruct (l !! k) as [x|] eqn:Hx; simpl; [|done].
  f_equal. apply setOrder_same. by apply (proj1 (positional_lookup l) H).
Qed.

Lemma findIndex_snoc {A} (p : A → bool) (l : list A) x :
  Js.findIndex p l = -1 → p x = true → Js.findIndex p (l ++ [x]) = Js.len l.
Proof.
  unfold Js.len. induction l as [|y l IH]; simpl app.
  - intros _ Hx. by rewrite findIndex_cons, Hx.
  - rewrite !findIndex_cons. destruct (p y); [done|].
    destruct (Js.findIndex p l =? -1) eqn:E;
      [|intros; destruct (findIndex_range p l); lia].
    apply Z.eqb_eq in E. intros _ Hx. rewrite (IH E Hx).
    destruct (_ =? -1) eqn:E'; [apply Z.eqb_eq in E'; lia|].
    simpl length. lia.
Qed.

(** X23. Deleting the task that [addTask] just made gives back the list as
    it was, when the list was numbered by position and the new id (made
    of the clock and a random part) is not the id of an older task. *)
Theorem add_then_delete (rnd txt : string) (w : World) (d : ChecklistData) :
  lastData w = Some d →
  positional (items d) →
  Js.findIndex (hasId ("task_" +:+ pretty (clock w) +:+ "_" +:+ rnd)) (items d)
    = -1 →
  storeItems (after (perform (Add rnd txt) w))
    = items d ++ [mkItem ("task_" +:+ pretty (clock w) +:+ "_" +:+ rnd) txt
                    false (Some false) None (Some (Js.len (items d)))] ∧
  result (perform (Delete ("task_" +:+ pretty (clock w) +:+ "_" +:+ rnd))
            (after (perform (Add rnd txt) w))) = true ∧
  storeItems (after (perform
      (Delete ("task_" +:+ pretty (clock w) +:+ "_" +:+ rnd))
      (after (perform (Add rnd txt) w))))
    = items d.
Proof.
  intros Hd Hpos Hfresh.
  set (newId := "task_" +:+ pretty (clock w) +:+ "_" +:+ rnd) in *.
  set (new := mkItem newId txt false (Some false) None (Some (Js.len (items d)))).
  destruct (perform_then (Add rnd txt) w d Hd) as (d' & Hd' & Hi' & Hc').
  cbn [plan planned] in Hi'. fold newId in Hi'. fold new in Hi'.
  assert (Hfound : Js.findIndex (hasId newId) (items d') = Js.len (items d)).
  { rewrite Hi'. apply findIndex_snoc; [done|]. apply String.eqb_refl. }
  assert (Hplan : plan (Delete newId) (clock (after (perform (Add rnd txt) w)))
                    (items d') = SaveNow (items d)).
  { cbn [plan]. rewrite Hfound.
    destruct (Js.len (items d) =? -1) eqn:E;
      [apply Z.eqb_eq in E; unfold Js.len in E; lia|].
    rewrite Hi'. unfold Js.spliceOut, Js.len. rewrite Nat2Z.id.
    rewrite delete_middle, app_nil_r. by rewrite renumber_positional. }
  split_and!.
  - unfold storeItems. by rewrite Hd', Hi'.
  - by rewrite (perform_result _ _ d' Hd'), Hplan.
  - by rewrite (perform_items _ _ d' Hd'), Hplan.
Qed.

Lemma add_then_delete_witness :
  storeItems (after (perform (Delete "task_5000_r")
      (after (perform (Add "r" "new") (Example.world Example.abc)))))
    = Example.abc.
Proof.
  apply (add_then_delete "r" "new" (Example.world Example.abc)
           (mkData Example.abc 100 None)); reflexivity.
Defined.

Lemma updFirst_alter p f (l : list ChecklistItem) k :
  Js.findIndex p l = Z.of_nat k → updFirst p f l = alter f k l.
Proof.
  revert k. induction l as [|x l IH]; intros k; [done|].
  rewrite findIndex_cons. simpl. destruct (p x).
  - intros H. by replace k with 0%nat by lia.
  - destruct (Js.findIndex p l =? -1) eqn:E; [lia|]. intros H.
    destruct k as [|k]; [destruct (findIndex_range p l); lia|].
    simpl. f_equal. apply IH. lia.
Qed.

Lemma findIndex_alter {A} (p : A → bool) (f : A → A) (l : list A) k :
  (∀ x, p (f x) = p x) → Js.findIndex p (alter f k l) = Js.findIndex p l.
Proof.
  intros Hf. revert k. induction l as [|x l IH]; intros k; [done|].
  destruct k as [|k].
  - change (alter f 0%nat (x :: l)) with (f x :: l).
    by rewrite !findIndex_cons, Hf.
  - change (alter f (S k) (x :: l)) with (x :: alter f k l).
    by rewrite !findIndex_cons, IH.
Qed.

Lemma toggled_twice t : done (toggled (toggled t)) = done t.
Proof. destruct t; simpl. apply negb_involutive. Qed.

Lemma toggled_twice_agree t : flagsAgree t → toggled (toggled t) = t.
Proof.
  unfold flagsAgree. destruct t as [i tx dn cp g o]; simpl. intros ->.
  unfold toggled; simpl. by rewrite negb_involutive.
Qed.

Lemma toggle_items i w d :
  lastData w = Some d →
  Js.findIndex (hasId i) (items d) ≠ -1 →
  storeItems (after (perform (Toggle i) w))
    = alter toggled (Z.to_nat (Js.findIndex (hasId i) (items d))) (items d).
Proof.
  intros Hd Hk. rewrite (perform_items _ w d Hd). cbn [plan].
  destruct (findIndex_found _ _ Hk) as (k & x & Hf & _).
  apply Z.eqb_neq in Hk as ->. rewrite Hf, Nat2Z.id.
  by apply updFirst_alter.
Qed.

(** X24. [toggleTaskById] flips the first task that has the id and touches
    no other. Toggling the same id again gives every task its [done]
    back, and gives back the whole list when the two completion flags of
    the task agreed. *)
Theorem toggle_twice_restores (i : string) (w : World) (d : ChecklistData) :
  lastData w = Some d →
  Js.findIndex (hasId i) (items d) ≠ -1 →
  storeItems (after (perform (Toggle i) w))
    = alter toggled (Z.to_nat (Js.findIndex (hasId i) (items d))) (items d) ∧
  map done (storeItems (after (perform (Toggle i)
                                 (after (perform (Toggle i) w)))))
    = map done (items d) ∧
  (Forall flagsAgree (items d) →
   storeItems (after (perform (Toggle i) (after (perform (Toggle i) w))))
     = items d).
Proof.
  intros Hd Hk.
  destruct (findIndex_found _ _ Hk) as (k & x & Hf & Hx & Hp & _).
  rewrite Hf, Nat2Z.id.
  assert (Hplan : ∀ now l, Js.findIndex (hasId i) l = Z.of_nat k →
            planned (plan (Toggle i) now l) l = alter toggled k l).
  { intros now l Hl. cbn [plan]. rewrite Hl.
    destruct (Z.of_nat k =? -1) eqn:E; [apply Z.eqb_eq in E; lia|].
    by apply updFirst_alter. }
  destruct (perform_then (Toggle i) w d Hd) as (d' & Hd' & Hi' & _).
  rewrite (Hplan _ _ Hf) in Hi'.
  assert (Hf' : Js.findIndex (hasId i) (items d') = Z.of_nat k).
  { rewrite Hi', findIndex_alter; [done|]. by intros []. }
  assert (Htwice : storeItems (after (perform (Toggle i)
                                        (after (perform (Toggle i) w))))
                   = alter (toggled ∘ toggled) k (items d)).
  { rewrite (perform_items _ _ d' Hd'), (Hplan _ _ Hf'), Hi'.
    by rewrite list_alter_alter_eq. }
  split_and!.
  - unfold storeItems. by rewrite Hd', Hi'.
  - rewrite Htwice. apply list_eq. intros j. rewrite !list_lookup_fmap.
    destruct (decide (k = j)) as [<-|Hne].
    + rewrite list_lookup_alter_eq, Hx.
      change (Some (done (toggled (toggled x))) = Some (done x)).
      by rewrite toggled_twice.
    + by rewrite list_lookup_alter_ne.
  - intros Hall. rewrite Htwice. apply list_eq. intros j.
    destruct (decide (k = j)) as [<-|Hne].
    + rewrite list_lookup_alter_eq, Hx.
      change (Some (toggled (toggled x)) = Some x). f_equal.
      apply toggled_twice_agree. by eapply Forall_lookup_1.
    + by rewrite list_lookup_alter_ne.
Qed.

Lemma toggle_twice_restores_witness :
  map done (storeItems (after (perform (Toggle "b")
     (after (perform (Toggle "b") (Example.world Example.abc))))))
  = [false; false; false].
Proof.
  apply (toggle_twice_restores "b" (Example.world Example.abc)
           (mkData Example.abc 100 None) eq_refl).
  vm_compute. discriminate.
Defined.

Lemma find_at_index {A} (p : A → bool) l x :
  Js.find p l = Some x →
  ∃ k, Js.findIndex p l = Z.of_nat k ∧ l !! k = Some x ∧ p x = true.
Proof.
  induction l as [|y l IH]; [done|]. simpl. rewrite findIndex_cons.
  destruct (p y) eqn:Hy.
  - intros [= ->]. by exists 0%nat.
  - intros H. destruct (IH H) as (k & Hk & Hx & Hp). exists (S k).
    rewrite Hk. destruct (Z.of_nat k =? -1) eqn:E; [apply Z.eqb_eq in E; lia|].
    split_and!; [lia|done|done].
Qed.


(** With distinct ids, the first task that has an id is the task that
    has it. *)
Lemma findIndex_unique (l : list ChecklistItem) k x :
  NoDup (map id l) → l !! k = Some x →
  Js.findIndex (hasId (id x)) l = Z.of_nat k.
Proof.
  intros Hnd Hx.
  assert (Hne : Js.findIndex (hasId (id x)) l ≠ -1).
  { intros Habs. apply findIndex_absent in Habs.
    pose proof (Forall_lookup_1 _ _ _ _ Habs Hx) as Hf. simpl in Hf.
    unfold hasId in Hf. by rewrite String.eqb_refl in Hf. }
  destruct (findIndex_found _ _ Hne) as (j & y & Hj & Hy & Hp & _).
  rewrite Hj. f_equal. apply hasId_true in Hp.
  apply (NoDup_lookup (map id l) j k (id x)); [done| |].
  - by rewrite list_lookup_fmap, Hy; simpl; rewrite Hp.
  - by rewrite list_lookup_fmap, Hx.
Qed.

Lemma filter_alter_length {A} (p : A → bool) f l k x :
  l !! k = Some x → p x = true → p (f x) = false →
  (length (List.filter p (alter f k l)) + 1)%nat = length (List.filter p l).
Proof.
  revert k. induction l as [|y l IH]; intros [|k]; try done.
  - intros [= ->] Hp Hf. change (alter f 0%nat (x :: l)) with (f x :: l).
    cbn [List.filter]. rewrite Hp, Hf. simpl length. lia.
  - intros Hx Hp Hf. specialize (IH k Hx Hp Hf).
    change (alter f (S k) (y :: l)) with (y :: alter f k l).
    cbn [List.filter]. destruct (p y); simpl length; lia.
Qed.

(** X25. [POST /tasks/toggle-next] with distinct ids: the first incomplete
    task of the list, and no other, becomes complete, so one incomplete
    task less is left, and its id is in the answer. With no incomplete
    task the answer is 404 and nothing changes. *)
Theorem toggle_next_completes_first (w : World) (d : ChecklistData) :
  lastData w = Some d →
  NoDup (map id (items d)) →
  match Js.find incomplete (items d) with
  | Some t =>
      storeItems (after (handle (Http (Some adminHeader) PostToggleNext) w))
        = alter toggled (Z.to_nat (Js.findIndex incomplete (items d)))
            (items d) ∧
      (length (List.filter incomplete (storeItems
         (after (handle (Http (Some adminHeader) PostToggleNext) w)))) + 1)%nat
        = length (List.filter incomplete (items d)) ∧
      last (effects (handle (Http (Some adminHeader) PostToggleNext) w))
        = Some (Respond 200 (BToggled (id t)))
  | None =>
      ∃ msg, handle (Http (Some adminHeader) PostToggleNext) w
             = (tt, w, [Respond 404 (BError msg)])
  end.
Proof.
  intros Hd Hnd.
  change (handle (Http (Some adminHeader) PostToggleNext) w)
    with (postToggleNext w).
  unfold postToggleNext. rewrite Hd. fold incomplete.
  change (λ item, negb (done item) && negb (default false (completed item)))
    with incomplete.
  destruct (Js.find incomplete (items d)) as [t|] eqn:Hfind; [|by eexists].
  destruct (find_at_index _ _ _ Hfind) as (k & Hk & Hx & Hp).
  rewrite Hk, Nat2Z.id.
  pose proof (findIndex_unique _ _ _ Hnd Hx) as Hid.
  assert (Hne : Js.findIndex (hasId (id t)) (items d) ≠ -1) by (rewrite Hid; lia).
  pose proof (toggle_items (id t) w d Hd Hne) as Hitems.
  rewrite Hid, Nat2Z.id in Hitems.
  change (toggleTaskById (id t)) with (perform (Toggle (id t))).
  assert (Hafter : after ((perform (Toggle (id t)) ;;;
                           emit (Respond 200 (BToggled (id t)))) w)
                   = after (perform (Toggle (id t)) w)) by reflexivity.
  assert (Heff : effects ((perform (Toggle (id t)) ;;;
                           emit (Respond 200 (BToggled (id t)))) w)
                 = effects (perform (Toggle (id t)) w)
                   ++ [Respond 200 (BToggled (id t))]) by reflexivity.
  rewrite Hafter, Heff, Hitems. split_and!; [done| |].
  - apply (filter_alter_length incomplete toggled _ k t Hx Hp).
    unfold incomplete in *. by destruct t as [? ? [] ? ? ?].
  - by rewrite last_snoc.
Qed.

Lemma toggle_next_completes_first_witness :
  map done (storeItems (after (handle (Http (Some adminHeader) PostToggleNext)
    (Example.world [toggled (Example.task "a" 0); Example.task "b" 1;
                    Example.task "c" 2]))))
  = [true; true; false].
Proof.
  pose proof (toggle_next_completes_first
    (Example.world [toggled (Example.task "a" 0); Example.task "b" 1;
                    Example.task "c" 2])
    (mkData [toggled (Example.task "a" 0); Example.task "b" 1;
             Example.task "c" 2] 100 None) eq_refl) as H.
  destruct H as (Hi & _).
  - apply (bool_decide_unpack _). vm_compute. reflexivity.
  - rewrite Hi. reflexivity.
Defined.

(** ** What a new client is told *)

Lemma request_keeps_file_selection auth r w d :
  lastData w = Some d →
  ∃ d', lastData (after (handle (Http auth r) w)) = Some d' ∧
        dataSelectedTaskId d' = dataSelectedTaskId d ∧
        openSockets (after (handle (Http auth r) w)) = openSockets w ∧
        throwingSockets (after (handle (Http auth r) w)) = throwingSockets w.
Proof.
  intros Hd. cbn [handle].
  destruct (route_cases auth r w)
    as [(st & body & ->)|[(m & st & body & -> & _)|(sl & body & _ & -> & _)]].
  - by exists d.
  - rewrite (perform_plan m w d Hd).
    destruct (plan m (clock w) (items d)) as [| |l'|l']; cbn [carryOut].
    + by exists d.
    + by exists d.
    + rewrite (savedNow_eq w d l' Hd). by eexists.
    + rewrite (savedLater_eq w d l' Hd). by eexists.
  - exists d. revert Hd. open_world w. intros ->. by unfold_monad.
Qed.

(** X26. A client that connects is sent the data with the selection that
    was in the tasks file, not the one the server holds: whatever
    requests came before, [POST /tasks/select] among them, the message
    on connection carries the file's [selectedTaskId]. *)
Theorem connection_sends_file_selection (es : list Event) (w : World)
    (d : ChecklistData) (ws : nat) :
  onlyRequests es = true →
  lastData w = Some d →
  sendable w ws = true →
  ∃ its t,
    effects (handle (WsConnection ws) (after (run es w)))
      = [Send ws (Snapshot its t (dataSelectedTaskId d))].
Proof.
  revert w d. induction es as [|e es IH]; intros w d Hes Hd Hs.
  - exists (items d), (ts d). revert Hd Hs. unfold sendable.
    open_world w. intros -> Hs. apply andb_true_iff in Hs as [Ho Ht].
    apply negb_true_iff in Ht.
    unfold onConnection, sendToClient. unfold_monad. simpl.
    by rewrite Ho, Ht.
  - destruct e as [auth r| | | | | |]; try done.
    change (after (run (Http auth r :: es) w))
      with (after (run es (after (handle (Http auth r) w)))).
    destruct (request_keeps_file_selection auth r w d Hd)
      as (d' & Hd' & Hsel & Ho & Ht).
    rewrite <- Hsel. apply IH; [done|done|].
    unfold sendable. by rewrite Ho, Ht.
Qed.

Lemma connection_sends_file_selection_witness :
  selectedTaskId (after (run [Http Example.bearer (PostSelect (Some "b"))]
                           (Example.world Example.abc))) = Some "b" ∧
  ∃ its t,
    effects (handle (WsConnection 1)
               (after (run [Http Example.bearer (PostSelect (Some "b"))]
                         (Example.world Example.abc))))
      = [Send 1%nat (Snapshot its t None)].
Proof.
  split; [reflexivity|].
  apply (connection_sends_file_selection
           [Http Example.bearer (PostSelect (Some "b"))]
           (Example.world Example.abc) (mkData Example.abc 100 None) 1);
    reflexivity.
Defined.

(** ** Moving up and down are inverse *)

Lemma positional_unordered_eq l1 l2 :
  positional l1 → positional l2 →
  map unordered l1 = map unordered l2 → l1 = l2.
Proof.
  intros H1 H2 Hu. apply list_eq. intros n.
  pose proof (f_equal (λ l, l !! n) Hu) as Hn. simpl in Hn.
  rewrite !list_lookup_fmap in Hn.
  destruct (l1 !! n) as [x|] eqn:E1, (l2 !! n) as [y|] eqn:E2; try done.
  apply (proj1 (positional_lookup l1) H1) in E1.
  apply (proj1 (positional_lookup l2) H2) in E2.
  destruct x, y. simpl in *. by simplify_eq.
Qed.

Lemma unordered_swapWith k j task other l :
  Js.at_ l j = Some other →
  map unordered (swapWith k j task l)
    = <[Z.to_nat j := unordered task]>
        (<[Z.to_nat k := unordered other]> (map unordered l)).
Proof.
  intros Hj. unfold swapWith. rewrite Hj, !unordered_updAt. unfold Js.setAt.
  change (map unordered) with (fmap (M:=list) unordered).
  by rewrite !list_fmap_insert.
Qed.

Lemma exchange_back {A} (U : list A) k j ux uo :
  U !! k = Some ux → U !! j = Some uo →
  <[k:=ux]> (<[j:=uo]> (<[j:=ux]> (<[k:=uo]> U))) = U.
Proof.
  intros Hk Hj. rewrite list_insert_insert_eq.
  destruct (decide (k = j)) as [->|Hne].
  - rewrite !list_insert_insert_eq. by apply list_insert_id.
  - rewrite (list_insert_insert_ne _ j k) by done.
    rewrite list_insert_insert_eq, (list_insert_id _ j) by done.
    by apply list_insert_id.
Qed.

Lemma findIndex_by_id (l : list ChecklistItem) n i :
  NoDup (map id l) → map id l !! n = Some i →
  Js.findIndex (hasId i) l = Z.of_nat n.
Proof.
  intros Hnd Hn. apply list_lookup_fmap_Some in Hn as (x & -> & Hx).
  by apply findIndex_unique.
Qed.

Lemma plan_move_up i now l k x :
  Js.findIndex (hasId i) l = Z.of_nat k → l !! k = Some x →
  map unordered (planned (plan (MoveUp i) now l) l)
    = match k with
      | O => map unordered (delete 0%nat l) ++ [unordered x]
      | S k' => match l !! k' with
                | Some o => <[k' := unordered x]>
                              (<[k := unordered o]> (map unordered l))
                | None => map unordered l
                end
      end.
Proof.
  intros Hf Hx. cbn [plan]. rewrite Hf, at_of_nat, Hx.
  destruct k as [|k'].
  - change (Z.of_nat 0) with 0. change (0 =? 0) with true. cbn [planned].
    rewrite unordered_renumber. unfold Js.spliceOut.
    change (Z.to_nat 0) with 0%nat. by rewrite fmap_app.
  - destruct (Z.of_nat (S k') =? 0) eqn:E; [apply Z.eqb_eq in E; lia|].
    cbn [planned].
    assert (Hlt : (k' < length l)%nat) by (apply lookup_lt_Some in Hx; lia).
    destruct (lookup_lt_is_Some_2 l k' Hlt) as [o Ho]. rewrite Ho.
    rewrite (unordered_swapWith _ _ _ o).
    + by replace (Z.to_nat (Z.of_nat (S k') - 1)) with k' by lia;
        rewrite Nat2Z.id.
    + replace (Z.of_nat (S k') - 1) with (Z.of_nat k') by lia.
      by rewrite at_of_nat.
Qed.

Lemma plan_move_down i now l k x :
  Js.findIndex (hasId i) l = Z.of_nat k → l !! k = Some x →
  map unordered (planned (plan (MoveDown i) now l) l)
    = match l !! S k with
      | Some o => <[S k := unordered x]>
                    (<[k := unordered o]> (map unordered l))
      | None => unordered x :: map unordered (delete k l)
      end.
Proof.
  intros Hf Hx. cbn [plan]. rewrite Hf, at_of_nat, Hx.
  pose proof (lookup_lt_Some _ _ _ Hx) as Hlt. unfold Js.len.
  destruct (l !! S k) as [o|] eqn:Ho.
  - pose proof (lookup_lt_Some _ _ _ Ho) as Hlt'.
    destruct (Z.of_nat k =? Z.of_nat (length l) - 1) eqn:E;
      [apply Z.eqb_eq in E; lia|].
    cbn [planned]. rewrite (unordered_swapWith _ _ _ o).
    + by replace (Z.to_nat (Z.of_nat k + 1)) with (S k) by lia;
        rewrite Nat2Z.id.
    + replace (Z.of_nat k + 1) with (Z.of_nat (S k)) by lia.
      by rewrite at_of_nat.
  - apply lookup_ge_None in Ho.
    destruct (Z.of_nat k =? Z.of_nat (length l) - 1) eqn:E;
      [|apply Z.eqb_neq in E; lia].
    cbn [planned]. rewrite unordered_renumber. unfold Js.spliceOut.
    by rewrite Nat2Z.id.
Qed.

Lemma plan_reorder_NoDup m now l :
  reorders m = true → NoDup (map id l) →
  NoDup (map id (planned (plan m now l) l)).
Proof.
  intros Hm Hnd. rewrite <- id_unordered.
  change (map id (map unordered ?x)) with (id <$> map unordered x).
  rewrite (plan_reorder_Permutation m now l Hm).
  change (id <$> map unordered l) with (map id (map unordered l)).
  by rewrite id_unordered.
Qed.

Lemma down_after_up i now now' l :
  positional l → NoDup (map id l) → Js.findIndex (hasId i) l ≠ -1 →
  planned (plan (MoveDown i) now' (planned (plan (MoveUp i) now l) l))
    (planned (plan (MoveUp i) now l) l) = l.
Proof.
  intros Hpos Hnd Hk.
  destruct (findIndex_found _ _ Hk) as (k & x & Hf & Hx & Hp & _).
  apply hasId_true in Hp.
  set (L := planned (plan (MoveUp i) now l) l).
  assert (HposL : positional L) by by apply plan_positional.
  assert (HndL : NoDup (map id L)) by by apply plan_reorder_NoDup.
  assert (HU : map unordered L = _) by apply (plan_move_up i now l k x Hf Hx).
  apply positional_unordered_eq; [by apply plan_positional|done|].
  assert (Hidx : ∀ n, map unordered L !! n = Some (unordered x) →
            ∃ x', Js.findIndex (hasId i) L = Z.of_nat n ∧ L !! n = Some x' ∧
                  unordered x' = unordered x).
  { intros n Hn. apply list_lookup_fmap_Some in Hn as (x' & Hx' & Hn).
    exists x'. split_and!; [|done|done].
    apply findIndex_by_id; [done|]. rewrite list_lookup_fmap, Hn. simpl.
    rewrite <- Hp. f_equal. by destruct x, x'; simplify_eq/=. }
  destruct k as [|k'].
  - destruct l as [|x0 t]; [done|]. simpl in Hx. injection Hx as ->.
    change (delete 0%nat (x :: t)) with t in HU.
    destruct (Hidx (length t)) as (x' & Hf' & Hx' & Hux).
    { rewrite HU. rewrite <- (length_map unordered t).
      by rewrite list_lookup_middle. }
    rewrite (plan_move_down i now' L _ x' Hf' Hx').
    assert (L !! S (length t) = None) as ->.
    { apply lookup_ge_None. rewrite <- (length_map unordered L), HU.
      rewrite length_app, length_map. simpl. lia. }
    rewrite Hux. simpl. f_equal.
    change (map unordered (delete (length t) L))
      with (unordered <$> delete (length t) L).
    rewrite list_fmap_delete.
    change (unordered <$> L) with (map unordered L). rewrite HU.
    rewrite <- (length_map unordered t) at 1.
    by rewrite delete_middle, app_nil_r.
  - assert (Hlt : (k' < length l)%nat) by (apply lookup_lt_Some in Hx; lia).
    destruct (lookup_lt_is_Some_2 l k' Hlt) as [o Ho]. rewrite Ho in HU.
    assert (HUk : map unordered l !! S k' = Some (unordered x))
      by (by rewrite list_lookup_fmap, Hx).
    assert (HUo : map unordered l !! k' = Some (unordered o))
      by (by rewrite list_lookup_fmap, Ho).
    destruct (Hidx k') as (x' & Hf' & Hx' & Hux).
    { rewrite HU. apply list_lookup_insert_eq.
      rewrite length_insert, length_map. lia. }
    rewrite (plan_move_down i now' L _ x' Hf' Hx').
    assert (HLo : map unordered L !! S k' = Some (unordered o)).
    { rewrite HU, list_lookup_insert_ne by lia.
      apply list_lookup_insert_eq. rewrite length_map.
      by apply lookup_lt_Some in Hx. }
    apply list_lookup_fmap_Some in HLo as (o' & Huo & ->).
    rewrite Hux, <- Huo, HU. by apply exchange_back.
Qed.

Lemma up_after_down i now now' l :
  positional l → NoDup (map id l) → Js.findIndex (hasId i) l ≠ -1 →
  planned (plan (MoveUp i) now' (planned (plan (MoveDown i) now l) l))
    (planned (plan (MoveDown i) now l) l) = l.
Proof.
  intros Hpos Hnd Hk.
  destruct (findIndex_found _ _ Hk) as (k & x & Hf & Hx & Hp & _).
  apply hasId_true in Hp.
  set (L := planned (plan (MoveDown i) now l) l).
  assert (HposL : positional L) by by apply plan_positional.
  assert (HndL : NoDup (map id L)) by by apply plan_reorder_NoDup.
  assert (HU : map unordered L = _) by apply (plan_move_down i now l k x Hf Hx).
  apply positional_unordered_eq; [by apply plan_positional|done|].
  assert (Hidx : ∀ n, map unordered L !! n = Some (unordered x) →
            ∃ x', Js.findIndex (hasId i) L = Z.of_nat n ∧ L !! n = Some x' ∧
                  unordered x' = unordered x).
  { intros n Hn. apply list_lookup_fmap_Some in Hn as (x' & Hx' & Hn).
    exists x'. split_and!; [|done|done].
    apply findIndex_by_id; [done|]. rewrite list_lookup_fmap, Hn. simpl.
    rewrite <- Hp. f_equal. by destruct x, x'; simplify_eq/=. }
  assert (HUk : map unordered l !! k = Some (unordered x))
    by (by rewrite list_lookup_fmap, Hx).
  destruct (l !! S k) as [o|] eqn:Ho.
  - assert (HUo : map unordered l !! S k = Some (unordered o))
      by (by rewrite list_lookup_fmap, Ho).
    destruct (Hidx (S k)) as (x' & Hf' & Hx' & Hux).
    { rewrite HU. apply list_lookup_insert_eq.
      rewrite length_insert, length_map. by apply lookup_lt_Some in Ho. }
    rewrite (plan_move_up i now' L _ x' Hf' Hx').
    assert (HLo : map unordered L !! k = Some (unordered o)).
    { rewrite HU, list_lookup_insert_ne by lia.
      apply list_lookup_insert_eq. rewrite length_map.
      by apply lookup_lt_Some in Hx. }
    apply list_lookup_fmap_Some in HLo as (o' & Huo & ->).
    rewrite Hux, <- Huo, HU. by apply exchange_back.
  - apply lookup_ge_None in Ho. pose proof (lookup_lt_Some _ _ _ Hx) as Hlt.
    destruct (Hidx 0%nat) as (x' & Hf' & Hx' & Hux); [by rewrite HU|].
    rewrite (plan_move_up i now' L _ x' Hf' Hx').
    change (map unordered (delete 0%nat L))
      with (unordered <$> delete 0%nat L).
    rewrite list_fmap_delete.
    change (unordered <$> L) with (map unordered L). rewrite HU, Hux.
    change (delete 0%nat (unordered x :: ?t)) with t.
    change (map unordered (delete k l)) with (unordered <$> delete k l).
    rewrite list_fmap_delete.
    change (unordered <$> l) with (map unordered l).
    rewrite <- (take_drop_middle _ _ _ HUk) at 2.
    rewrite delete_take_drop.
    assert (drop (S k) (map unordered l) = []) as ->
      by (apply drop_ge; rewrite length_map; lia).
    by rewrite app_nil_r.
Qed.

(** X27. On a list numbered by position whose ids are distinct,
    [moveTaskDown] undoes [moveTaskUp] and [moveTaskUp] undoes
    [moveTaskDown], the wrap-around at both ends included. *)
Theorem move_up_down_inverse (i : string) (w : World) (d : ChecklistData) :
  lastData w = Some d →
  positional (items d) →
  NoDup (map id (items d)) →
  Js.findIndex (hasId i) (items d) ≠ -1 →
  storeItems (after (perform (MoveDown i) (after (perform (MoveUp i) w))))
    = items d ∧
  storeItems (after (perform (MoveUp i) (after (perform (MoveDown i) w))))
    = items d.
Proof.
  intros Hd Hpos Hnd Hk. split.
  - destruct (perform_then (MoveUp i) w d Hd) as (d' & Hd' & Hi' & _).
    rewrite (perform_items _ _ d' Hd'), Hi'. by apply down_after_up.
  - destruct (perform_then (MoveDown i) w d Hd) as (d' & Hd' & Hi' & _).
    rewrite (perform_items _ _ d' Hd'), Hi'. by apply up_after_down.
Qed.

Lemma move_up_down_inverse_witness :
  storeItems (after (perform (MoveDown "a")
     (after (perform (MoveUp "a") (Example.world Example.abc)))))
  = Example.abc.
Proof.
  apply (move_up_down_inverse "a" (Example.world Example.abc)
           (mkData Example.abc 100 None) eq_refl eq_refl).
  - apply (bool_decide_unpack _). vm_compute. reflexivity.
  - vm_compute. discriminate.
Defined.

Lemma delete_spliceIn {A} (c : Z) (x : A) (l : list A) :
  0 ≤ c ≤ Js.len l → delete (Z.to_nat c) (Js.spliceIn c x l) = l.
Proof.
  unfold Js.len, Js.spliceIn. intros Hc. set (n := Z.to_nat c).
  transitivity (delete (length (take n l)) (take n l ++ x :: drop n l)).
  - by rewrite length_take_le by lia.
  - by rewrite delete_middle, take_drop.
Qed.

(** X28. [moveTaskToPosition] moves one task only: with the moved task taken
    out, the list after the call is the list before it, in the same
    order. *)
Theorem moveToPosition_keeps_others (i : string) (target : Z) (w : World)
    (d : ChecklistData) :
  lastData w = Some d →
  Js.findIndex (hasId i) (items d) ≠ -1 →
  map unordered
    (delete (Z.to_nat (Z.max 0 (Z.min target (Js.len (items d) - 1))))
       (storeItems (after (perform (MoveToPosition i target) w))))
  = map unordered
      (delete (Z.to_nat (Js.findIndex (hasId i) (items d))) (items d)).
Proof.
  intros Hd Hk. rewrite (perform_items _ w d Hd). cbn [plan].
  destruct (at_findIndex _ _ Hk) as (task & Ht & _). rewrite Ht.
  pose proof (at_nonneg _ _ _ Ht) as Hr.
  destruct (_ =? _) eqn:E; cbn [planned].
  - apply Z.eqb_eq in E. by rewrite E.
  - change (map unordered (delete ?n ?l)) with (unordered <$> delete n l).
    rewrite !list_fmap_delete.
    change (unordered <$> renumber ?l) with (map unordered (renumber l)).
    rewrite unordered_renumber.
    change (map unordered ?l) with (unordered <$> l).
    rewrite <- !list_fmap_delete.
    rewrite delete_spliceIn; [done|].
    rewrite len_spliceOut by done. lia.
Qed.

Lemma moveToPosition_keeps_others_witness :
  map unordered
    (delete (Z.to_nat (Z.max 0 (Z.min 7 (Js.len Example.abc - 1))))
       (storeItems (after (perform (MoveToPosition "a" 7)
                             (Example.world Example.abc)))))
  = map unordered
      (delete (Z.to_nat (Js.findIndex (hasId "a") Example.abc)) Example.abc).
Proof.
  apply (moveToPosition_keeps_others "a" 7 (Example.world Example.abc)
           (mkData Example.abc 100 None) eq_refl).
  vm_compute. discriminate.
Defined.

(** ** The texts that the routes store *)








(** X30. [POST /tasks/reset] does nothing without [confirm: true]; with it,
    every task is incomplete under both flags afterwards, whatever the
    flags were, and nothing else of a task changes. *)
Theorem reset_clears_every_task (authorization : option string) (w : World)
    (d : ChecklistData) :
  lastData w = Some d →
  after (handle (Http authorization (PostReset false)) w) = w ∧
  writes (effects (handle (Http authorization (PostReset false)) w)) = [] ∧
  Forall (λ t, incomplete t = true ∧ completed t = Some false)
    (storeItems (after (handle (Http (Some adminHeader) (PostReset true)) w))) ∧
  map (λ t, (id t, text t, group t, order t))
    (storeItems (after (handle (Http (Some adminHeader) (PostReset true)) w)))
    = map (λ t, (id t, text t, group t, order t)) (items d) ∧
  storeItems (after (handle (Http (Some adminHeader) (PostReset true))
     (after (handle (Http (Some adminHeader) (PostReset true)) w))))
    = storeItems (after (handle (Http (Some adminHeader) (PostReset true)) w)).
Proof.
  intros Hd.
  assert (Hreset : ∀ w' d', lastData w' = Some d' →
    storeItems (after (handle (Http (Some adminHeader) (PostReset true)) w'))
      = map cleared (items d')).
  { intros w' d' Hd'.
    change (handle (Http (Some adminHeader) (PostReset true)) w')
      with (postReset true w').
    unfold postReset. cbn [negb]. rewrite Hd'.
    change resetAllTasks with (perform Reset).
    change (after ((perform Reset ;;; ?k) w')) with (after (perform Reset w')).
    by rewrite (perform_items _ w' d' Hd'). }
  split_and!.
  - destruct (decide (authorization = Some adminHeader)) as [->|Hne].
    + reflexivity.
    + cbn [handle route].
      by destruct (authenticateAdmin_rejects authorization (postReset false)
                     w Hne) as (st & msg & _ & ->).
  - destruct (decide (authorization = Some adminHeader)) as [->|Hne].
    + reflexivity.
    + cbn [handle route].
      by destruct (authenticateAdmin_rejects authorization (postReset false)
                     w Hne) as (st & msg & _ & ->).
  - rewrite (Hreset w d Hd). apply Forall_forall.
    intros t (x & -> & _)%list_elem_of_fmap. done.
  - rewrite (Hreset w d Hd), map_map. apply map_ext. by intros [].
  - destruct (request_keeps_file_selection (Some adminHeader) (PostReset true)
                w d Hd) as (d' & Hd' & _).
    rewrite (Hreset _ d' Hd'), (Hreset w d Hd).
    assert (items d' = map cleared (items d)) as ->.
    { rewrite <- (Hreset w d Hd). unfold storeItems. by rewrite Hd'. }
    rewrite map_map. apply map_ext. by intros [].
Qed.

Lemma reset_clears_every_task_witness :
  Forall (λ t, incomplete t = true ∧ completed t = Some false)
    (storeItems (after (handle (Http (Some adminHeader) (PostReset true))
       (Example.world [toggled (Example.task "a" 0); Example.stale])))).
Proof.
  apply (reset_clears_every_task None
    (Example.world [toggled (Example.task "a" 0); Example.stale])
    (mkData [toggled (Example.task "a" 0); Example.stale] 100 None) eq_refl).
Defined.
